(** * Building a text classifier with differential privacy

    A shallow embedding of the notebook
    [tutorials/building_text_classifier.ipynb]: the dataset download, the
    parsing of the SNLI frames into examples, the feature conversion, the
    layer freezing, the evaluation cycle and the training loop with virtual
    batches.  External collaborators (pandas, transformers, torch, opacus)
    appear as interfaces; the notebook's own control flow is transcribed. *)

From Stdlib Require Import ZArith Lia Bool.
From stdpp Require Import base tactics option list list_numbers strings pretty functions.

Local Open Scope Z_scope.

(** ** Python values held by a dataframe cell *)

Module Py.

(** What [pd.read_csv] puts in a cell of an object column: a string, a
    number, or the float NaN that stands for an empty field. *)
Inductive value : Type :=
| Str (s : string)
| Int (z : Z)
| NaN.

Global Instance value_eq_dec : EqDecision value.
Proof. solve_decision. Defined.

(** [isinstance(v, str)] *)
Definition isinstance_str (v : value) : bool :=
  match v with
  | Str _ => true
  | _ => false
  end.

(** [a == b].  NaN compares unequal to everything, itself included. *)
Definition eqb (a b : value) : bool :=
  match a, b with
  | Str s, Str t => bool_decide (s = t)
  | Int x, Int y => bool_decide (x = y)
  | _, _ => false
  end.

(** [v in l] on a list: some element is equal to [v].  (Python also accepts
    an identical element; the lists searched here hold only strings, for
    which identity implies equality.) *)
Definition contains (l : list value) (v : value) : bool :=
  existsb (eqb v) l.

(** [isinstance(v, int)] *)
Definition isinstance_int (v : value) : bool :=
  match v with
  | Int _ => true
  | _ => false
  end.

(** [str(v)], as an f-string formats a value. *)
Definition str (v : value) : string :=
  match v with
  | Str s => s
  | Int z => pretty z
  | NaN => "nan"
  end.

End Py.

(** ** Dataset rows and examples (cell 19) *)

Module Dataset.

(** A row of the SNLI frame, restricted to the three columns the notebook
    reads. *)
Record Row : Type := mkRow {
  sentence1 : Py.value;
  sentence2 : Py.value;
  gold_label : Py.value
}.

(** A dataframe as [df.iterrows()] enumerates it: index label and row, in
    order.  A label is any value; [pd.read_csv] numbers the rows. *)
Definition DataFrame : Type := list (Py.value * Row).

Definition iterrows (df : DataFrame) : list (Py.value * Row) := df.

(** [transformers.InputExample]: a plain record, the fields hold whatever
    was passed. *)
Record InputExample : Type := mkInputExample {
  guid : string;
  text_a : Py.value;
  text_b : Py.value;
  label : Py.value
}.

Definition LABEL_LIST : list Py.value :=
  [Py.Str "contradiction"; Py.Str "entailment"; Py.Str "neutral"].

Definition MAX_SEQ_LENGHT : nat := 128.

(** [f"{index}-{set_type}"] *)
Definition format_guid (index : Py.value) (set_type : string) : string :=
  Py.str index +:+ "-" +:+ set_type.

(** One iteration of the [for index, row in df.iterrows()] loop: the two
    [continue] guards, then [examples.append(...)]. *)
Definition _create_examples_body (set_type : string)
    (examples : list InputExample) (ir : Py.value * Row) : list InputExample :=
  let '(index, row) := ir in
  if negb (Py.contains LABEL_LIST (gold_label row)) then examples
  else if negb (Py.isinstance_str (sentence1 row))
          || negb (Py.isinstance_str (sentence2 row)) then examples
  else
    let guid := format_guid index set_type in
    examples ++ [mkInputExample guid (sentence1 row) (sentence2 row) (gold_label row)].

Definition _create_examples (df : DataFrame) (set_type : string) : list InputExample :=
  fold_left (_create_examples_body set_type) (iterrows df) [].

(** The rows that pass both guards, and the example built from one. *)
Definition retained (row : Row) : bool :=
  Py.contains LABEL_LIST (gold_label row)
  && Py.isinstance_str (sentence1 row)
  && Py.isinstance_str (sentence2 row).

Definition example_of (set_type : string) (ir : Py.value * Row) : InputExample :=
  mkInputExample (format_guid ir.1 set_type)
    (sentence1 ir.2) (sentence2 ir.2) (gold_label ir.2).

End Dataset.

(** ** Exceptions and state

    Notebook code that calls into the outside world is written in a state
    monad whose computations either return or raise.  There is no handler
    combinator: the notebook has no [try]. *)

Module Exc.

Inductive exn : Type :=
| ZeroDivisionError
| AssertionError
| IndexError
| External (name : string).

Inductive result (A : Type) : Type :=
| Returned (a : A)
| Raised (e : exn).
Global Arguments Returned {A} a.
Global Arguments Raised {A} e.

Definition M (S A : Type) : Type := S → result A * S.

Definition ret {S A} (a : A) : M S A := λ s, (Returned a, s).

Definition raise {S A} (e : exn) : M S A := λ s, (Raised e, s).

Definition bind {S A B} (c : M S A) (k : A → M S B) : M S B :=
  λ s, match c s with
       | (Returned a, s') => k a s'
       | (Raised e, s') => (Raised e, s')
       end.

Definition modify {S} (f : S → S) : M S unit := λ s, (Returned tt, f s).

(** [for step, x in enumerate(xs)] threading the loop-carried value. *)
Fixpoint for_enumerate {S A B} (body : Z → A → B → M S B)
    (step : Z) (xs : list A) (acc : B) : M S B :=
  match xs with
  | [] => ret acc
  | x :: xs' => bind (body step x acc) (for_enumerate body (step + 1) xs')
  end.

(** [for x in xs] threading the loop-carried value. *)
Fixpoint for_in {S A B} (body : A → B → M S B) (xs : list A) (acc : B) : M S B :=
  match xs with
  | [] => ret acc
  | x :: xs' => bind (body x acc) (for_in body xs')
  end.

(** [a % b] on Python integers: the result takes the sign of the divisor,
    as [Z.modulo] does; a zero divisor raises. *)
Definition py_mod {S} (a b : Z) : M S Z :=
  if b =? 0 then raise ZeroDivisionError else ret (a mod b).

End Exc.

Declare Scope exc_scope.
Delimit Scope exc_scope with exc.
Notation "x <- c ;; k" := (Exc.bind c (λ x, k))
  (at level 100, c at next level, right associativity) : exc_scope.
Notation "c ;;; k" := (Exc.bind c (λ _, k))
  (at level 100, right associativity) : exc_scope.

(** ** Feature conversion (cell 19) *)

Module Features.
Import Dataset.

(** [transformers.InputFeatures] *)
Record InputFeatures : Type := mkInputFeatures {
  input_ids : list Z;
  attention_mask : list Z;
  token_type_ids : list Z;
  feature_label : Z
}.

(** The keyword arguments older [transformers] releases need. *)
Record legacy_kwargs : Type := mkLegacy {
  pad_on_left : bool;
  pad_token : Z;
  pad_token_segment_id : Z
}.

(** A release number, compared as [packaging.version] does. *)
Definition version : Type := (nat * nat * nat)%type.

Definition version_ltb (v w : version) : bool :=
  let '(a1, b1, c1) := v in
  let '(a2, b2, c2) := w in
  (a1 <? a2)%nat
  || ((a1 =? a2)%nat && ((b1 <? b2)%nat || ((b1 =? b2)%nat && (c1 <? c2)%nat))).

(** The part of [transformers] the conversion calls. *)
Class Transformers : Type := {
  tokenizer : Type;
  transformers_version : version;
  tokenizer_pad_token : tokenizer → string;
  convert_tokens_to_ids : tokenizer → list string → list Z;
  glue_convert_examples_to_features :
    list InputExample → tokenizer → list Py.value → nat → string →
    option legacy_kwargs → Exc.result (list InputFeatures)
}.

Definition _df_to_features `{Transformers} (tok : tokenizer)
    (df : DataFrame) (set_type : string) : Exc.result (list InputFeatures) :=
  let examples := _create_examples df set_type in
  let legacy_kwards : Exc.result (option legacy_kwargs) :=
    if version_ltb transformers_version (2, 9, 0)%nat then
      match convert_tokens_to_ids tok [tokenizer_pad_token tok] with
      | id0 :: _ => Exc.Returned (Some (mkLegacy false id0 0))
      | [] => Exc.Raised Exc.IndexError
      end
    else Exc.Returned None in
  match legacy_kwards with
  | Exc.Returned kw =>
      glue_convert_examples_to_features examples tok LABEL_LIST
        MAX_SEQ_LENGHT "classification" kw
  | Exc.Raised e => Exc.Raised e
  end.

(** All three sequences of a feature record have length [n]. *)
Definition fixed_length (n : nat) (f : InputFeatures) : Prop :=
  length (input_ids f) = n
  ∧ length (attention_mask f) = n
  ∧ length (token_type_ids f) = n.

End Features.

(** ** Layer freezing (cell 15) *)

Module Freeze.

(** A parameter object is named by its identity; the heap gives its state. *)
Definition ref : Type := nat.

Record param_state : Type := mkParam {
  numel : nat;
  requires_grad : bool
}.

Abbreviation heap := (ref → param_state).

(** The module tree of [BertForSequenceClassification], each submodule
    with the parameter objects it owns, in [parameters()] order. *)
Record BertForSequenceClassification : Type := mkBert {
  bert_embeddings : list ref;
  bert_encoder_layer : list (list ref);
  bert_pooler : list ref;
  classifier : list ref
}.

(** [model.parameters()] *)
Definition parameters (model : BertForSequenceClassification) : list ref :=
  bert_embeddings model ++ concat (bert_encoder_layer model)
    ++ bert_pooler model ++ classifier model.

(** [p.requires_grad = b] *)
Definition set_requires_grad (b : bool) (p : ref) (h : heap) : heap :=
  <[p := mkParam (numel (h p)) b]> h.

(** [[model.bert.encoder.layer[-1], model.bert.pooler, model.classifier]] *)
Definition trainable_layers (model : BertForSequenceClassification)
  : Exc.result (list (list ref)) :=
  match list.last (bert_encoder_layer model) with
  | Some l => Exc.Returned [l; bert_pooler model; classifier model]
  | None => Exc.Raised Exc.IndexError
  end.

(** The body shared by both loops: set the flag, add [p.numel()]. *)
Definition visit (b : bool) (st : heap * nat) (p : ref) : heap * nat :=
  (set_requires_grad b p st.1, (st.2 + numel (st.1 p))%nat).

Record freeze_result : Type := mkFreeze {
  heap_after : heap;
  total_params : nat;
  trainable_params : nat
}.

Definition freeze (model : BertForSequenceClassification) (h : heap)
  : Exc.result freeze_result :=
  match trainable_layers model with
  | Exc.Raised e => Exc.Raised e
  | Exc.Returned layers =>
      let '(h1, total) := fold_left (visit false) (parameters model) (h, 0%nat) in
      let '(h2, trainable) :=
        fold_left (λ st layer, fold_left (visit true) layer st) layers (h1, 0%nat) in
      Exc.Returned (mkFreeze h2 total trainable)
  end.

(** Elements held by the parameters of the model whose flag is off. *)
Definition frozen_params (model : BertForSequenceClassification) (h : heap) : nat :=
  sum_list_with (λ p, numel (h p))
    (List.filter (λ p, negb (requires_grad (h p))) (parameters model)).

End Freeze.

(** ** Dataset download (cells 4 and 5) *)

Module Download.
Import Exc.

Definition STANFORD_SNLI_URL : string :=
  "https://nlp.stanford.edu/projects/snli/snli_1.0.zip".
Definition DATA_DIR : string := "data".

(** The calls [download_and_extract] makes to the outside world. *)
Inductive op : Type :=
| Print (msg : string)
| UrlRetrieve (url filename : string)
| ZipOpen (filename : string)
| ZipExtractAll (data_dir : string)
| ZipClose
| OsRemove (filename : string).

Global Instance op_eq_dec : EqDecision op.
Proof. solve_decision. Defined.

(** The outside world: given the operations attempted so far, whether the
    next one raises. *)
Definition environment : Type := list op → op → option exn.

(** Attempt an operation; the attempt is recorded whether or not it raises. *)
Definition perform (env : environment) (o : op) : M (list op) unit :=
  λ h, match env h o with
       | Some e => (Raised e, h ++ [o])
       | None => (Returned tt, h ++ [o])
       end.

(** [with zipfile.ZipFile(filename) as zip_ref: body].  [ZipFile.__exit__]
    closes the archive on both exits and does not suppress the exception of
    the body. *)
Definition with_ZipFile (env : environment) (filename : string)
    (body : M (list op) unit) : M (list op) unit :=
  (perform env (ZipOpen filename) ;;;
   λ h, match body h with
        | (Returned _, h') => perform env ZipClose h'
        | (Raised e, h') =>
            match perform env ZipClose h' with
            | (Returned _, h'') => (Raised e, h'')
            | (Raised e', h'') => (Raised e', h'')
            end
        end)%exc.

Definition download_and_extract (env : environment)
    (dataset_url data_dir : string) : M (list op) unit :=
  (perform env (Print "Downloading and extracting ...") ;;;
   let filename := "snli.zip" in
   perform env (UrlRetrieve dataset_url filename) ;;;
   with_ZipFile env filename (perform env (ZipExtractAll data_dir)) ;;;
   perform env (OsRemove filename) ;;;
   perform env (Print "Completed!"))%exc.

(** Among the operations [ops] attempted after [h], one raised [e]. *)
Definition raises_with (env : environment) (h ops : list op) (e : exn) : Prop :=
  ∃ pre o post, ops = pre ++ o :: post ∧ env (h ++ pre) o = Some e.

(** A computation that swallows nothing: it only extends the history, it
    raises as soon as one of its operations does, and what it raises is
    what one of its operations raised. *)
Definition propagating {A} (env : environment) (c : M (list op) A) : Prop :=
  ∀ h, ∃ ops,
    (c h).2 = h ++ ops
    ∧ ((∃ e, raises_with env h ops e) → ∃ e, (c h).1 = Raised e)
    ∧ (∀ e, (c h).1 = Raised e → raises_with env h ops e).

End Download.

(** ** Privacy engine, evaluation cycle and training loop (cells 21 to 31) *)

Module Training.
Import Exc.

(** The part of torch, numpy and opacus the loops call.  [module] is the
    whole torch-side state: model, optimizer, attached engine, gradients. *)
Class Torch : Type := {
  float : Type;
  ndarray : Type;
  batch : Type;
  module : Type;
  to_device : batch → batch;
  batch_labels : batch → ndarray;
  int_truediv : Z → Z → float;
  np_mean : list float → float;
  np_argmax : ndarray → ndarray;
  eq_mean : ndarray → ndarray → float;
  nn_parameters : module → list ndarray;
  nn_training : module → bool;
  nn_eval : module → module;
  nn_train : module → module;
  nn_call : bool → module → batch → module * (float * ndarray);
  autograd_backward : module → module;
  nn_zero_grad : module → module;
  opt_step : module → module;
  opt_virtual_step : module → module;
  engine_init : Z → Z → module → module;
  engine_attach : module → module;
  engine_get_privacy_spent : module → float → float * float
}.

(** Calls made on the model, the optimizer and the privacy engine. *)
Inductive call : Type :=
| call_PrivacyEngine (batch_size sample_size : Z)
| call_attach
| call_model (grad_enabled : bool)
| call_backward
| call_step
| call_virtual_step
| call_zero_grad
| call_get_privacy_spent
| call_eval
| call_train
| call_print (epoch step : Z).

Global Instance call_eq_dec : EqDecision call.
Proof. solve_decision. Defined.

Record World `{Torch} : Type := mkWorld {
  torch : module;
  calls : list call
}.
Global Arguments mkWorld {_} _ _.

Definition invoke `{Torch} (c : call) (f : module → module) : M World unit :=
  modify (λ w, mkWorld (f (torch w)) (calls w ++ [c])).

Definition invoke_with `{Torch} {A} (c : call) (f : module → module * A)
  : M World A :=
  λ w, (Returned (f (torch w)).2, mkWorld (f (torch w)).1 (calls w ++ [c])).

Definition query `{Torch} {A} (c : call) (f : module → A) : M World A :=
  λ w, (Returned (f (torch w)), mkWorld (torch w) (calls w ++ [c])).

Record Config : Type := mkConfig {
  BATCH_SIZE : Z;
  VIRTUAL_BATCH_SIZE : Z;
  EPOCHS : Z;
  LOGGING_INTERVAL : Z
}.

Definition notebook_config : Config := mkConfig 8 32 3 1000.

(** The loaders.  The training loader draws a fresh random order in every
    epoch; its [len] is the same in all of them. *)
Record Data `{Torch} : Type := mkData {
  len_train_dataset : Z;
  len_train_dataloader : Z;
  train_dataloader : Z → list batch;
  test_dataloader : list batch
}.
Global Arguments mkData {_} _ _ _ _.

(** Cell 26: build the engine from the configuration values and attach it. *)
Definition cell_26 `{Torch} (cfg : Config) (d : Data) : M World unit :=
  (invoke (call_PrivacyEngine (VIRTUAL_BATCH_SIZE cfg) (len_train_dataset d))
     (engine_init (VIRTUAL_BATCH_SIZE cfg) (len_train_dataset d)) ;;;
   invoke call_attach engine_attach)%exc.

(** [accuracy(preds, labels)]: [(preds == labels).mean()] *)
Definition accuracy `{Torch} (preds labels : ndarray) : float :=
  eq_mean preds labels.

(** The body of the loop of [evaluate], carrying [loss_arr] and
    [accuracy_arr]. *)
Definition evaluate_batch `{Torch} (b : batch) (arrs : list float * list float)
  : M World (list float * list float) :=
  (let b := to_device b in
   outputs <- invoke_with (call_model false) (λ m, nn_call false m b) ;;
   let preds := np_argmax outputs.2 in
   let labels := batch_labels b in
   ret (arrs.1 ++ [outputs.1], arrs.2 ++ [accuracy preds labels]))%exc.

Definition evaluate `{Torch} (d : Data) : M World (float * float) :=
  (invoke call_eval nn_eval ;;;
   arrs <- for_in evaluate_batch (test_dataloader d) ([], []) ;;
   invoke call_train nn_train ;;;
   ret (np_mean arrs.1, np_mean arrs.2))%exc.

(** Cell 30.  [virtual_batch_rate] is the float [VIRTUAL_BATCH_SIZE /
    BATCH_SIZE]; past the assertion the quotient is integral, and a float
    holds it (and every step number it is compared with) exactly below
    [2^53], so it is kept here as the integer it equals. *)
Definition cell_30 `{Torch} (cfg : Config) (d : Data) : M World (float * Z) :=
  (DELTA <- (if len_train_dataloader d =? 0 then raise ZeroDivisionError
             else ret (int_truediv 1 (len_train_dataloader d))) ;;
   r <- py_mod (VIRTUAL_BATCH_SIZE cfg) (BATCH_SIZE cfg) ;;
   (if r =? 0 then ret tt else raise AssertionError) ;;;
   let virtual_batch_rate := VIRTUAL_BATCH_SIZE cfg / BATCH_SIZE cfg in
   ret (DELTA, virtual_batch_rate))%exc.

(** The optimizer call of one physical batch. *)
Definition optimizer_update `{Torch} (virtual_batch_rate len step : Z)
  : M World unit :=
  (r <- py_mod (step + 1) virtual_batch_rate ;;
   if (r =? 0) || (step =? len - 1)
   then invoke call_step opt_step
   else invoke call_virtual_step opt_virtual_step)%exc.

(** The report every [LOGGING_INTERVAL] steps. *)
Definition report `{Torch} (cfg : Config) (d : Data) (DELTA : float)
    (epoch step : Z) (losses : list float) : M World unit :=
  (r <- (if 0 <? step then py_mod step (LOGGING_INTERVAL cfg) else ret 1) ;;
   if (0 <? step) && (r =? 0) then
     let train_loss := np_mean losses in
     privacy <- query call_get_privacy_spent
                  (λ m, engine_get_privacy_spent m DELTA) ;;
     metrics <- evaluate d ;;
     query (call_print epoch step) (λ _, tt)
   else ret tt)%exc.

(** The body of the inner loop of cell 31, carrying [losses]. *)
Definition train_batch `{Torch} (cfg : Config) (d : Data)
    (DELTA : float) (virtual_batch_rate epoch : Z)
    (step : Z) (b : batch) (losses : list float) : M World (list float) :=
  (let b := to_device b in
   outputs <- invoke_with (call_model true) (λ m, nn_call true m b) ;;
   let loss := outputs.1 in
   invoke call_backward autograd_backward ;;;
   let losses := losses ++ [loss] in
   optimizer_update virtual_batch_rate (len_train_dataloader d) step ;;;
   invoke call_zero_grad nn_zero_grad ;;;
   report cfg d DELTA epoch step losses ;;;
   ret losses)%exc.

Definition train_epoch `{Torch} (cfg : Config) (d : Data)
    (DELTA : float) (virtual_batch_rate : Z) (epoch : Z) (_ : unit)
  : M World unit :=
  (losses <- for_enumerate (train_batch cfg d DELTA virtual_batch_rate epoch)
               0 (train_dataloader d epoch) [] ;;
   ret tt)%exc.

(** Cell 31: [for epoch in range(1, EPOCHS+1)]. *)
Definition cell_31 `{Torch} (cfg : Config) (d : Data)
    (DELTA : float) (virtual_batch_rate : Z) : M World unit :=
  for_in (train_epoch cfg d DELTA virtual_batch_rate) (seqZ 1 (EPOCHS cfg)) tt.

(** Cells 26, 30 and 31 in notebook order. *)
Definition notebook_training `{Torch} (cfg : Config) (d : Data) : M World unit :=
  (cell_26 cfg d ;;;
   dr <- cell_30 cfg d ;;
   cell_31 cfg d dr.1 dr.2)%exc.

(** *** The calls the loops are expected to make *)

Definition is_optimizer_call (c : call) : bool :=
  match c with
  | call_step | call_virtual_step => true
  | _ => false
  end.

(** Methods of the privacy engine: called on [privacy_engine], on
    [optimizer.privacy_engine], or installed by it on the optimizer. *)
Definition is_engine_method (c : call) : bool :=
  match c with
  | call_attach | call_step | call_virtual_step | call_get_privacy_spent => true
  | _ => false
  end.

Definition update_due (virtual_batch_rate len step : Z) : bool :=
  ((step + 1) mod virtual_batch_rate =? 0) || (step =? len - 1).

Definition optimizer_call_at (virtual_batch_rate len step : Z) : call :=
  if update_due virtual_batch_rate len step then call_step else call_virtual_step.

Definition logging_due (cfg : Config) (step : Z) : bool :=
  (0 <? step) && (step mod LOGGING_INTERVAL cfg =? 0).

Definition evaluate_calls (test_batches : nat) : list call :=
  [call_eval] ++ replicate test_batches (call_model false) ++ [call_train].

Definition report_calls (cfg : Config) (test_batches : nat) (epoch step : Z)
  : list call :=
  if logging_due cfg step
  then [call_get_privacy_spent] ++ evaluate_calls test_batches
         ++ [call_print epoch step]
  else [].

Definition batch_calls (cfg : Config) (virtual_batch_rate len : Z)
    (test_batches : nat) (epoch step : Z) : list call :=
  [call_model true; call_backward;
   optimizer_call_at virtual_batch_rate len step; call_zero_grad]
  ++ report_calls cfg test_batches epoch step.

Definition epoch_calls (cfg : Config) (virtual_batch_rate len : Z)
    (test_batches : nat) (epoch : Z) : list call :=
  concat (map (batch_calls cfg virtual_batch_rate len test_batches epoch)
            (seqZ 0 len)).

(** The engine's constructor and methods, as the training cells reach them. *)
Definition is_engine_call (c : call) : bool :=
  match c with
  | call_PrivacyEngine _ _ => true
  | _ => is_engine_method c
  end.

Definition engine_calls_at (cfg : Config) (virtual_batch_rate len step : Z)
  : list call :=
  optimizer_call_at virtual_batch_rate len step
  :: (if logging_due cfg step then [call_get_privacy_spent] else []).

Definition engine_calls (cfg : Config) (sample_size len : Z) : list call :=
  [call_PrivacyEngine (VIRTUAL_BATCH_SIZE cfg) sample_size; call_attach]
  ++ concat (map (λ epoch : Z,
                    concat (map (engine_calls_at cfg
                                   (VIRTUAL_BATCH_SIZE cfg / BATCH_SIZE cfg) len)
                              (seqZ 0 len)))
               (seqZ 1 (EPOCHS cfg))).

(** The torch state after the forward passes of [evaluate]. *)
Definition forward_all `{Torch} (bs : list batch) (m : module) : module :=
  fold_left (λ m b, (nn_call false m (to_device b)).1) bs m.

(** A computation that returns from every world, having made exactly the
    calls [cs]. *)
Definition emits `{Torch} {A} (c : M World A) (cs : list call) : Prop :=
  ∀ w, ∃ a w', c w = (Returned a, w') ∧ calls w' = calls w ++ cs.

End Training.

(** ** Tensor dataset (cell 19) *)

Module TensorData.
Import Features.

(** Sequencing of calls that return or raise, without state. *)
Definition and_then {A B} (r : Exc.result A) (k : A → Exc.result B) : Exc.result B :=
  match r with
  | Exc.Returned a => k a
  | Exc.Raised e => Exc.Raised e
  end.

(** The value fits [torch.long]. *)
Definition fits_long (z : Z) : bool := (- 2 ^ 63 <=? z) && (z <? 2 ^ 63).

(** All rows have the width of the first one. *)
Definition rectangular (rows : list (list Z)) : bool :=
  match rows with
  | [] => true
  | r :: rest => forallb (λ r', (length r' =? length r)%nat) rest
  end.

(** [torch.tensor(rows, dtype=torch.long)] on a list of lists.  The tensor
    is kept as its rows; the call raises on rows of different lengths and on
    an entry outside the 64-bit range. *)
Definition torch_tensor_2d (rows : list (list Z)) : Exc.result (list (list Z)) :=
  if rectangular rows && forallb (forallb fits_long) rows
  then Exc.Returned rows
  else Exc.Raised (Exc.External "torch.tensor").

(** [torch.tensor(xs, dtype=torch.long)] on a flat list. *)
Definition torch_tensor_1d (xs : list Z) : Exc.result (list Z) :=
  if forallb fits_long xs then Exc.Returned xs
  else Exc.Raised (Exc.External "torch.tensor").

(** [torch.utils.data.TensorDataset]: four tensors with one first
    dimension. *)
Record TensorDataset : Type := mkTensorDataset {
  all_input_ids : list (list Z);
  all_attention_mask : list (list Z);
  all_token_type_ids : list (list Z);
  all_labels : list Z
}.

(** The constructor asserts that the first dimensions agree. *)
Definition TensorDataset_init (a b c : list (list Z)) (d : list Z)
  : Exc.result TensorDataset :=
  if (length b =? length a)%nat && (length c =? length a)%nat
     && (length d =? length a)%nat
  then Exc.Returned (mkTensorDataset a b c d)
  else Exc.Raised Exc.AssertionError.

(** [len(dataset)]: the first dimension of the first tensor. *)
Definition dataset_len (ds : TensorDataset) : nat := length (all_input_ids ds).

(** [dataset[i]] for an index counted from the start. *)
Definition dataset_getitem (ds : TensorDataset) (i : nat)
  : Exc.result (list Z * list Z * list Z * Z) :=
  match all_input_ids ds !! i, all_attention_mask ds !! i,
        all_token_type_ids ds !! i, all_labels ds !! i with
  | Some a, Some b, Some c, Some d => Exc.Returned (a, b, c, d)
  | _, _, _, _ => Exc.Raised Exc.IndexError
  end.

Definition _features_to_dataset (features : list InputFeatures)
  : Exc.result TensorDataset :=
  and_then (torch_tensor_2d (map input_ids features)) (λ all_input_ids,
  and_then (torch_tensor_2d (map attention_mask features)) (λ all_attention_mask,
  and_then (torch_tensor_2d (map token_type_ids features)) (λ all_token_type_ids,
  and_then (torch_tensor_1d (map feature_label features)) (λ all_labels,
  TensorDataset_init all_input_ids all_attention_mask all_token_type_ids
    all_labels)))).

(** Every entry of the three sequences and the label fit [torch.long]. *)
Definition fits_tensor (f : InputFeatures) : Prop :=
  forallb fits_long (input_ids f) = true
  ∧ forallb fits_long (attention_mask f) = true
  ∧ forallb fits_long (token_type_ids f) = true
  ∧ fits_long (feature_label f) = true.

End TensorData.

(** ** Counting calls, and what [evaluate] averages *)

Module Tally.
Import Training.

(** How often [c] occurs among the calls. *)
Definition count_calls (c : call) (cs : list call) : nat :=
  length (List.filter (λ x, bool_decide (x = c)) cs).

(** The quotient rounded up. *)
Definition ceil_div (a b : Z) : Z := (a + b - 1) / b.

(** Loss and accuracy of each test batch, the model state passing from one
    forward pass to the next. *)
Fixpoint eval_outputs `{Torch} (bs : list batch) (m : module)
  : list (float * float) :=
  match bs with
  | [] => []
  | b :: bs' =>
      let b' := to_device b in
      let r := nn_call false m b' in
      (r.2.1, accuracy (np_argmax r.2.2) (batch_labels b'))
      :: eval_outputs bs' r.1
  end.

(** The calls a batch makes when it does not report. *)
Definition is_plain_training_call (c : call) : bool :=
  match c with
  | call_model true | call_backward | call_step | call_virtual_step
  | call_zero_grad => true
  | _ => false
  end.

End Tally.

(** ** The cells as sequences of calls that may fail

    Every code cell, in notebook order, as the library calls and the
    raising Python operations it makes.  The outside world decides which
    call raises; what the data decides (how many rows, parameters and
    batches there are, which branch a test takes) is given by a [Shape].
    The values the calls return are left out. *)

Module Cells.
Import Exc.

Inductive call : Type :=
| Dl (o : Download.op)
| Lib (name : string)
| Py (operation : string).

Global Instance cell_call_eq_dec : EqDecision call.
Proof. solve_decision. Defined.

Definition environment : Type := list call → call → option exn.

Definition perform (env : environment) (c : call) : M (list call) unit :=
  λ h, match env h c with
       | Some e => (Raised e, h ++ [c])
       | None => (Returned tt, h ++ [c])
       end.

(** [n] times the same statements. *)
Definition times (n : nat) (body : M (list call) unit) : M (list call) unit :=
  for_in (λ _ _, body) (seq 0 n) tt.

(** [with enter: body]: the exit runs on both ways out and does not
    suppress the exception of the body. *)
Definition with_context (env : environment) (enter exit : call)
    (body : M (list call) unit) : M (list call) unit :=
  (perform env enter ;;;
   λ h, match body h with
        | (Returned _, h') => perform env exit h'
        | (Raised e, h') =>
            match perform env exit h' with
            | (Returned _, h'') => (Raised e, h'')
            | (Raised e', h'') => (Raised e', h'')
            end
        end)%exc.

(** What [_create_examples] finds in a row. *)
Inductive row_kind : Type :=
| UnknownLabel
| Sentence1NotStr
| Sentence2NotStr
| WellFormed.

Record Shape : Type := mkShape {
  legacy : bool;
  n_parameters : nat;
  n_layer_parameters : list nat;
  train_rows : list row_kind;
  test_rows : list row_kind;
  n_epochs : Z;
  n_train_batches : nat;
  n_test_batches : nat;
  rate_due : Z → Z → bool;
  last_batch : Z → Z → bool;
  report_due : Z → Z → bool
}.

Section Notebook.
Variable env : environment.
Variable sh : Shape.

Abbreviation lib name := (perform env (Lib name)).
Abbreviation py operation := (perform env (Py operation)).

(** [download_and_extract] run on the part of the world it sees. *)
Definition download_and_extract (dataset_url data_dir : string)
  : M (list call) unit :=
  λ h, let run := Download.download_and_extract
                    (λ h' o, env (h ++ map Dl h') (Dl o))
                    dataset_url data_dir [] in
       (run.1, h ++ map Dl run.2).

Definition cell_5 : M (list call) unit :=
  (lib "import zipfile" ;;; lib "import urllib.request" ;;; lib "import os" ;;;
   download_and_extract Download.STANFORD_SNLI_URL Download.DATA_DIR)%exc.

Definition cell_7 : M (list call) unit :=
  (lib "os.path.join" ;;; lib "os.listdir")%exc.

Definition cell_9 : M (list call) unit :=
  (lib "import pandas" ;;;
   lib "os.path.join" ;;; lib "os.path.join" ;;;
   lib "pd.read_csv" ;;; lib "pd.read_csv" ;;;
   lib "DataFrame.__getitem__" ;;; lib "DataFrame.__getitem__")%exc.

Definition cell_12 : M (list call) unit :=
  (lib "from transformers import" ;;;
   lib "BertConfig.from_pretrained" ;;;
   lib "BertTokenizer.from_pretrained" ;;;
   lib "BertForSequenceClassification.from_pretrained")%exc.

Definition cell_15 : M (list call) unit :=
  (py "model.bert.encoder.layer[-1]" ;;;
   lib "model.parameters" ;;;
   times (n_parameters sh) (lib "p.requires_grad = False" ;;; lib "p.numel") ;;;
   for_in (λ n _, lib "layer.parameters" ;;;
                  times n (lib "p.requires_grad = True" ;;; lib "p.numel"))
     (n_layer_parameters sh) tt ;;;
   lib "print" ;;; lib "print")%exc.

(** One turn of the loop of [_create_examples]: the row is indexed as far
    as the guards go. *)
Definition _create_examples_row (k : row_kind) (_ : unit) : M (list call) unit :=
  (lib "row['gold_label']" ;;;
   match k with
   | UnknownLabel => ret tt
   | Sentence1NotStr => lib "row['sentence1']"
   | Sentence2NotStr => lib "row['sentence1']" ;;; lib "row['sentence2']"
   | WellFormed =>
       lib "row['sentence1']" ;;; lib "row['sentence2']" ;;;
       lib "row['sentence1']" ;;; lib "row['sentence2']" ;;;
       lib "row['gold_label']" ;;; lib "InputExample"
   end)%exc.

Definition _create_examples (rows : list row_kind) : M (list call) unit :=
  (lib "df.iterrows" ;;; for_in _create_examples_row rows tt)%exc.

Definition _df_to_features (rows : list row_kind) : M (list call) unit :=
  (_create_examples rows ;;;
   lib "from packaging import version" ;;;
   lib "version.parse" ;;; lib "version.parse" ;;;
   (if legacy sh
    then lib "tokenizer.convert_tokens_to_ids" ;;;
         py "tokenizer.convert_tokens_to_ids(...)[0]"
    else ret tt) ;;;
   lib "glue_convert_examples_to_features")%exc.

Definition _features_to_dataset : M (list call) unit :=
  (lib "torch.tensor" ;;; lib "torch.tensor" ;;; lib "torch.tensor" ;;;
   lib "torch.tensor" ;;; lib "TensorDataset")%exc.

Definition cell_19 : M (list call) unit :=
  (lib "import torch" ;;; lib "import transformers" ;;;
   lib "from torch.utils.data import" ;;; lib "from transformers import" ;;;
   lib "from transformers import" ;;;
   _df_to_features (train_rows sh) ;;;
   _df_to_features (test_rows sh) ;;;
   _features_to_dataset ;;; _features_to_dataset)%exc.

Definition cell_22 : M (list call) unit :=
  (lib "from torch.utils.data import" ;;;
   lib "RandomSampler" ;;; lib "DataLoader" ;;;
   lib "SequentialSampler" ;;; lib "DataLoader")%exc.

Definition cell_24 : M (list call) unit :=
  (lib "import torch" ;;;
   lib "torch.cuda.is_available" ;;; lib "torch.device" ;;; lib "model.to" ;;;
   lib "model.parameters" ;;; lib "torch.optim.AdamW")%exc.

Definition cell_26 : M (list call) unit :=
  (lib "from opacus import" ;;;
   lib "len(train_dataset)" ;;; lib "PrivacyEngine" ;;;
   lib "privacy_engine.attach")%exc.

Definition cell_28 : M (list call) unit :=
  (lib "import numpy" ;;; lib "from tqdm.notebook import")%exc.

(** [tuple(t.to(device) for t in batch)], then the four [batch[i]] of the
    [inputs] dictionary. *)
Definition batch_to_device : M (list call) unit :=
  (times 4 (lib "t.to") ;;; times 4 (py "batch[i]"))%exc.

Definition evaluate : M (list call) unit :=
  (lib "model.eval" ;;;
   lib "iter(test_dataloader)" ;;;
   times (n_test_batches sh)
     (lib "next(test_dataloader)" ;;;
      batch_to_device ;;;
      with_context env (Lib "torch.no_grad.__enter__") (Lib "torch.no_grad.__exit__")
        (lib "model(**inputs)" ;;; py "outputs[:2]" ;;;
         lib "logits.detach().cpu().numpy()" ;;; lib "np.argmax" ;;;
         lib "labels.detach().cpu().numpy()" ;;;
         lib "loss.item" ;;; lib "(preds == labels).mean()")) ;;;
   lib "model.train" ;;;
   lib "np.mean" ;;; lib "np.mean")%exc.

Definition cell_30 : M (list call) unit :=
  (lib "len(train_dataloader)" ;;; py "1 / len(train_dataloader)" ;;;
   py "VIRTUAL_BATCH_SIZE % BATCH_SIZE" ;;; py "assert" ;;;
   py "VIRTUAL_BATCH_SIZE / BATCH_SIZE")%exc.

Definition train_batch (epoch step : Z) (_ : nat) (_ : unit)
  : M (list call) unit :=
  (lib "next(train_dataloader)" ;;;
   batch_to_device ;;;
   lib "model(**inputs)" ;;; py "outputs[0]" ;;;
   lib "loss.backward" ;;; lib "loss.item" ;;;
   py "(step + 1) % virtual_batch_rate" ;;;
   (if rate_due sh epoch step then lib "optimizer.step"
    else lib "len(train_dataloader)" ;;;
         if last_batch sh epoch step then lib "optimizer.step"
         else lib "optimizer.virtual_step") ;;;
   lib "model.zero_grad" ;;;
   (if 0 <? step then py "step % LOGGING_INTERVAL" else ret tt) ;;;
   if (0 <? step) && report_due sh epoch step
   then lib "np.mean" ;;; lib "get_privacy_spent" ;;; evaluate ;;; lib "print"
   else ret tt)%exc.

Definition cell_31 : M (list call) unit :=
  for_in (λ epoch _,
            lib "tqdm" ;;; lib "iter(train_dataloader)" ;;;
            for_enumerate (train_batch epoch) 0 (seq 0 (n_train_batches sh)) tt)%exc
    (seqZ 1 (n_epochs sh)) tt.

Definition notebook : M (list call) unit :=
  (cell_5 ;;; cell_7 ;;; cell_9 ;;; cell_12 ;;; cell_15 ;;; cell_19 ;;;
   cell_22 ;;; cell_24 ;;; cell_26 ;;; cell_28 ;;; cell_30 ;;; cell_31)%exc.

End Notebook.

(** Among the calls [ops] attempted after [h], one raised [e]. *)
Definition raises_with (env : environment) (h ops : list call) (e : exn) : Prop :=
  ∃ pre o post, ops = pre ++ o :: post ∧ env (h ++ pre) o = Some e.

(** The exits of the two [with] blocks of the notebook. *)
Definition is_cleanup (c : call) : Prop :=
  c = Dl Download.ZipClose ∨ c = Lib "torch.no_grad.__exit__".

(** A computation that catches nothing.  It only extends the history; a
    call that raises makes it raise and is followed by nothing but the
    exits of enclosing [with] blocks; and what it raises, one of its calls
    raised. *)
Definition propagating {A} (env : environment) (c : M (list call) A) : Prop :=
  ∀ h, ∃ ops,
    (c h).2 = h ++ ops
    ∧ (∀ pre o post e,
         ops = pre ++ o :: post → env (h ++ pre) o = Some e →
         (∃ e', (c h).1 = Raised e') ∧ Forall is_cleanup post)
    ∧ (∀ e, (c h).1 = Raised e → raises_with env h ops e).

End Cells.

(** ** Small concrete instances, for running the definitions *)

Module Concrete.

(** Three encoder layers in place of twelve; the parameter objects are
    numbered in [parameters()] order. *)
Definition small_bert : Freeze.BertForSequenceClassification :=
  Freeze.mkBert [0; 1]%nat [[2; 3]; [4; 5]; [6; 7]]%nat [8; 9]%nat [10; 11]%nat.

Definition small_heap : Freeze.heap :=
  λ p, Freeze.mkParam (10 * (p + 1)) (Nat.even p).

(** A torch in which nothing is computed: the state counts the updates. *)
Definition counting_torch : Training.Torch := {|
  Training.float := Z;
  Training.ndarray := Z;
  Training.batch := Z;
  Training.module := list Z * bool;
  Training.to_device := id;
  Training.batch_labels := id;
  Training.int_truediv := λ a b, a / b;
  Training.np_mean := λ l, foldr Z.add 0 l;
  Training.np_argmax := id;
  Training.eq_mean := λ a b, if a =? b then 1 else 0;
  Training.nn_parameters := fst;
  Training.nn_training := snd;
  Training.nn_eval := λ m, (m.1, false);
  Training.nn_train := λ m, (m.1, true);
  Training.nn_call := λ _ m b, (m, (b, b));
  Training.autograd_backward := id;
  Training.nn_zero_grad := id;
  Training.opt_step := λ m, (map Z.succ m.1, m.2);
  Training.opt_virtual_step := id;
  Training.engine_init := λ _ _, id;
  Training.engine_attach := id;
  Training.engine_get_privacy_spent := λ _ delta, (delta, 0)
|}.

Definition small_data (batches : nat) : @Training.Data counting_torch :=
  @Training.mkData counting_torch (8 * Z.of_nat batches) (Z.of_nat batches)
    (λ epoch, map (λ i, epoch + i) (seqZ 0 (Z.of_nat batches)))
    [100; 101].

Definition initial_world : @Training.World counting_torch :=
  @Training.mkWorld counting_torch ([0; 0], true) [].

End Concrete.


(** * Properties *)

(** ** Lists *)

Lemma filter_sublist {A} (f : A → bool) (l : list A) :
  List.filter f l `sublist_of` l.
Proof.
  induction l as [|x l IH]; simpl; [constructor|].
  destruct (f x); by constructor.
Qed.

Lemma filter_all {A} (f : A → bool) (l : list A) :
  (∀ x, x ∈ l → f x = true) → List.filter f l = l.
Proof.
  induction l as [|x l IH]; intros Hf; simpl; [done|].
  rewrite Hf by left. f_equal. apply IH. intros y Hy. apply Hf. by right.
Qed.

Lemma filter_none {A} (f : A → bool) (l : list A) :
  (∀ x, x ∈ l → f x = false) → List.filter f l = [].
Proof.
  induction l as [|x l IH]; intros Hf; simpl; [done|].
  rewrite Hf by left. apply IH. intros y Hy. apply Hf. by right.
Qed.

Lemma filter_concat_map {A B} (f : B → bool) (g : A → list B) (l : list A) :
  List.filter f (concat (map g l)) = concat (map (λ x, List.filter f (g x)) l).
Proof.
  induction l as [|x l IH]; simpl; [done|]. by rewrite List.filter_app, IH.
Qed.

Lemma filter_replicate_false {A} (f : A → bool) n x :
  f x = false → List.filter f (replicate n x) = [].
Proof. intros Hx. induction n as [|n IH]; simpl; [done|]. by rewrite Hx. Qed.

Lemma concat_map_singleton {A B} (g : A → B) (l : list A) :
  concat (map (λ x, [g x]) l) = map g l.
Proof. induction l as [|x l IH]; simpl; [done|]. by rewrite IH. Qed.

Lemma sum_list_with_pointwise {A} (f g : A → nat) (l : list A) :
  (∀ x, f x = g x) → sum_list_with f l = sum_list_with g l.
Proof. intros Hfg. induction l as [|x l IH]; simpl; [done|]. by rewrite Hfg, IH. Qed.

(** ** Parsing the frames *)

Module DatasetFacts.
Import Dataset.

Lemma eqb_Str_true v s : Py.eqb v (Py.Str s) = true ↔ v = Py.Str s.
Proof.
  destruct v as [t|z|]; simpl; try (split; [discriminate | discriminate]).
  rewrite bool_decide_eq_true. split; congruence.
Qed.

Lemma contains_LABEL_LIST v :
  Py.contains LABEL_LIST v = true ↔
  v = Py.Str "contradiction" ∨ v = Py.Str "entailment" ∨ v = Py.Str "neutral".
Proof.
  unfold Py.contains, LABEL_LIST. simpl.
  rewrite !orb_true_iff, !eqb_Str_true. intuition discriminate.
Qed.

Lemma contains_elem_of v : Py.contains LABEL_LIST v = true ↔ v ∈ LABEL_LIST.
Proof.
  rewrite contains_LABEL_LIST. unfold LABEL_LIST.
  rewrite !elem_of_cons, elem_of_nil. tauto.
Qed.

Lemma retained_true row :
  retained row = true ↔
  gold_label row ∈ LABEL_LIST
  ∧ Py.isinstance_str (sentence1 row) = true
  ∧ Py.isinstance_str (sentence2 row) = true.
Proof.
  unfold retained. rewrite !andb_true_iff, contains_elem_of. tauto.
Qed.

(** One turn of the loop either leaves [examples] alone or appends the
    example of the row, according to [retained]. *)
Lemma body_retained set_type examples ir :
  _create_examples_body set_type examples ir =
  if retained ir.2 then examples ++ [example_of set_type ir] else examples.
Proof.
  destruct ir as [index row]. unfold _create_examples_body, retained, example_of.
  cbn [fst snd]. destruct (Py.contains LABEL_LIST (gold_label row)); simpl; [|done].
  destruct (Py.isinstance_str (sentence1 row)); simpl; [|done].
  destruct (Py.isinstance_str (sentence2 row)); done.
Qed.

Lemma loop_from set_type rows examples :
  fold_left (_create_examples_body set_type) rows examples =
  examples ++ map (example_of set_type) (List.filter (λ ir, retained ir.2) rows).
Proof.
  revert examples. induction rows as [|ir rows IH]; intros examples; simpl.
  - by rewrite app_nil_r.
  - rewrite IH, body_retained. destruct (retained ir.2); simpl; [|done].
    by rewrite <- app_assoc.
Qed.

Lemma create_examples_filter_map df set_type :
  _create_examples df set_type =
  map (example_of set_type) (List.filter (λ ir, retained ir.2) (iterrows df)).
Proof. unfold _create_examples. by rewrite loop_from. Qed.

Lemma elem_of_create_examples df set_type ex :
  ex ∈ _create_examples df set_type →
  ∃ ir, ir ∈ iterrows df ∧ retained ir.2 = true ∧ ex = example_of set_type ir.
Proof.
  rewrite create_examples_filter_map, list_elem_of_In, in_map_iff.
  intros (ir & <- & Hin). apply filter_In in Hin as [Hin Hr].
  exists ir. by rewrite list_elem_of_In.
Qed.

Lemma create_examples_without df1 df2 index row set_type :
  retained row = false →
  _create_examples (df1 ++ (index, row) :: df2) set_type =
  _create_examples (df1 ++ df2) set_type.
Proof.
  intros Hr. rewrite !create_examples_filter_map. unfold iterrows.
  rewrite !List.filter_app. simpl. by rewrite Hr.
Qed.

(** C2: a row whose [gold_label] is none of the three label strings
    contributes nothing: the examples are those of the frame without the
    row, and no returned example carries that label. *)
Theorem create_examples_excludes_unknown_label df1 df2 index row set_type :
  gold_label row ≠ Py.Str "contradiction" →
  gold_label row ≠ Py.Str "entailment" →
  gold_label row ≠ Py.Str "neutral" →
  _create_examples (df1 ++ (index, row) :: df2) set_type =
    _create_examples (df1 ++ df2) set_type
  ∧ ∀ ex, ex ∈ _create_examples (df1 ++ (index, row) :: df2) set_type →
          label ex ≠ gold_label row.
Proof.
  intros H1 H2 H3.
  assert (Hc : Py.contains LABEL_LIST (gold_label row) = false).
  { apply not_true_is_false. rewrite contains_LABEL_LIST. tauto. }
  split.
  - apply create_examples_without. unfold retained. by rewrite Hc.
  - intros ex (ir & _ & Hr & ->)%elem_of_create_examples. simpl. intros Heq.
    apply retained_true in Hr as (Hl & _). apply contains_elem_of in Hl.
    rewrite Heq in Hl. congruence.
Qed.

Lemma create_examples_excludes_unknown_label_witness :
  let dash := mkRow (Py.Str "A dog runs.") (Py.Str "An animal moves.") (Py.Str "-") in
  let good := mkRow (Py.Str "A man sleeps.") (Py.Str "A man is awake.")
                (Py.Str "contradiction") in
  _create_examples ([(Py.Int 0, good)] ++ (Py.Int 1, dash) :: [(Py.Int 2, good)])
      "train" =
    _create_examples ([(Py.Int 0, good)] ++ [(Py.Int 2, good)]) "train"
  ∧ ∀ ex, ex ∈ _create_examples
                 ([(Py.Int 0, good)] ++ (Py.Int 1, dash) :: [(Py.Int 2, good)])
                 "train" →
          label ex ≠ gold_label dash.
Proof.
  intros dash good.
  apply (create_examples_excludes_unknown_label [(Py.Int 0, good)]
           [(Py.Int 2, good)] (Py.Int 1) dash "train");
    simpl; discriminate.
Defined.

(** C3: a row whose [sentence1] or [sentence2] is not a string contributes
    nothing: the examples are those of the frame without the row, and both
    texts of every returned example are strings. *)
Theorem create_examples_excludes_non_string df1 df2 index row set_type :
  Py.isinstance_str (sentence1 row) = false
  ∨ Py.isinstance_str (sentence2 row) = false →
  _create_examples (df1 ++ (index, row) :: df2) set_type =
    _create_examples (df1 ++ df2) set_type
  ∧ ∀ ex, ex ∈ _create_examples (df1 ++ (index, row) :: df2) set_type →
          Py.isinstance_str (text_a ex) = true
          ∧ Py.isinstance_str (text_b ex) = true.
Proof.
  intros Hs. split.
  - apply create_examples_without. unfold retained.
    destruct Hs as [-> | ->]; [by rewrite andb_false_r | by rewrite andb_false_r].
  - intros ex (ir & _ & Hr & ->)%elem_of_create_examples. simpl.
    apply retained_true in Hr. tauto.
Qed.

Lemma create_examples_excludes_non_string_witness :
  let hole := mkRow (Py.Str "A dog runs.") Py.NaN (Py.Str "neutral") in
  let good := mkRow (Py.Str "A man sleeps.") (Py.Str "A man rests.")
                (Py.Str "entailment") in
  _create_examples ([(Py.Int 0, good)] ++ (Py.Int 1, hole) :: []) "test" =
    _create_examples ([(Py.Int 0, good)] ++ []) "test"
  ∧ ∀ ex, ex ∈ _create_examples ([(Py.Int 0, good)] ++ (Py.Int 1, hole) :: [])
                 "test" →
          Py.isinstance_str (text_a ex) = true
          ∧ Py.isinstance_str (text_b ex) = true.
Proof.
  intros hole good.
  apply (create_examples_excludes_non_string [(Py.Int 0, good)] [] (Py.Int 1) hole
           "test").
  right. reflexivity.
Defined.

(** C9: [_create_examples] is an order-preserving filter.  The examples
    come, in order, from a subsequence of the rows as iterated; each example
    carries its row's [sentence1], [sentence2] and [gold_label] unchanged;
    every label is a member of [LABEL_LIST]. *)
Theorem create_examples_order_preserving_filter df set_type :
  ∃ kept,
    kept `sublist_of` iterrows df
    ∧ Forall2 (λ ex ir, text_a ex = sentence1 ir.2
                        ∧ text_b ex = sentence2 ir.2
                        ∧ label ex = gold_label ir.2
                        ∧ guid ex = format_guid ir.1 set_type)
        (_create_examples df set_type) kept
    ∧ Forall (λ ex, label ex ∈ LABEL_LIST) (_create_examples df set_type).
Proof.
  exists (List.filter (λ ir, retained ir.2) (iterrows df)). split; [|split].
  - apply filter_sublist.
  - rewrite create_examples_filter_map.
    induction (List.filter _ _) as [|ir l IH]; simpl; constructor; auto.
  - apply list.Forall_forall. intros ex (ir & _ & Hr & ->)%elem_of_create_examples.
    simpl. by apply retained_true in Hr as (Hl & _).
Qed.

End DatasetFacts.

(** ** Layer freezing *)

Module FreezeFacts.
Import Freeze.
Local Open Scope nat_scope.

Lemma fold_visit_numel b ps st q :
  numel ((fold_left (visit b) ps st).1 q) = numel (st.1 q).
Proof.
  revert st. induction ps as [|p ps IH]; intros st; simpl; [done|].
  rewrite IH. unfold visit, set_requires_grad. cbn [fst snd].
  destruct (decide (p = q)) as [->|Hne].
  - by rewrite fn_lookup_insert.
  - by rewrite fn_lookup_insert_ne.
Qed.

Lemma fold_visit_flag_notin b ps st q :
  q ∉ ps → requires_grad ((fold_left (visit b) ps st).1 q) = requires_grad (st.1 q).
Proof.
  revert st. induction ps as [|p ps IH]; intros st Hq; simpl; [done|].
  apply not_elem_of_cons in Hq as [Hne Hq]. rewrite IH; [|done].
  unfold visit, set_requires_grad. cbn [fst snd]. by rewrite fn_lookup_insert_ne.
Qed.

Lemma fold_visit_flag_in b ps st q :
  q ∈ ps → requires_grad ((fold_left (visit b) ps st).1 q) = b.
Proof.
  revert st. induction ps as [|p ps IH]; intros st Hq; simpl.
  - by apply elem_of_nil in Hq.
  - destruct (decide (q ∈ ps)) as [Hin|Hnin]; [by apply IH|].
    apply elem_of_cons in Hq as [->|?]; [|done].
    rewrite fold_visit_flag_notin by done.
    unfold visit, set_requires_grad. cbn [fst snd]. by rewrite fn_lookup_insert.
Qed.

Lemma fold_visit_count b ps st :
  (fold_left (visit b) ps st).2 = st.2 + sum_list_with (λ p, numel (st.1 p)) ps.
Proof.
  revert st. induction ps as [|p ps IH]; intros st; simpl; [lia|].
  rewrite IH. simpl. rewrite <- Nat.add_assoc. f_equal. f_equal.
  clear IH. induction ps as [|p' ps IH]; simpl; [done|].
  rewrite IH. f_equal. unfold set_requires_grad.
  destruct (decide (p = p')) as [->|Hne].
  - by rewrite fn_lookup_insert.
  - by rewrite fn_lookup_insert_ne.
Qed.

Lemma fold_layers (layers : list (list ref)) st b :
  fold_left (λ st layer, fold_left (visit b) layer st) layers st =
  fold_left (visit b) (concat layers) st.
Proof.
  revert st. induction layers as [|l layers IH]; intros st; simpl; [done|].
  by rewrite IH, fold_left_app.
Qed.

(** The parameters split into those of the frozen part and those of the
    trainable layers. *)
Lemma parameters_split model l :
  list.last (bert_encoder_layer model) = Some l →
  ∃ frozen, parameters model = frozen ++ concat [l; bert_pooler model; classifier model].
Proof.
  intros (init & Hl)%last_Some. unfold parameters. rewrite Hl.
  exists (bert_embeddings model ++ concat init). simpl.
  rewrite concat_app. simpl. by rewrite !app_nil_r, <- !app_assoc.
Qed.

(** After both loops the flag of a parameter of the model tells whether
    it belongs to a trainable layer. *)
Lemma freeze_returns model h :
  bert_encoder_layer model ≠ [] →
  ∃ l r, list.last (bert_encoder_layer model) = Some l
         ∧ freeze model h = Exc.Returned r
         ∧ heap_after r =
             (fold_left (visit true) (concat [l; bert_pooler model; classifier model])
                ((fold_left (visit false) (parameters model) (h, 0)).1, 0)).1
         ∧ total_params r = sum_list_with (λ p, numel (h p)) (parameters model)
         ∧ trainable_params r =
             sum_list_with (λ p, numel (h p))
               (concat [l; bert_pooler model; classifier model]).
Proof.
  intros Hne. apply last_is_Some in Hne as [l Hl]. exists l.
  unfold freeze, trainable_layers. rewrite Hl.
  destruct (fold_left (visit false) (parameters model) (h, 0)) as [h1 total] eqn:E1.
  rewrite fold_layers.
  destruct (fold_left (visit true) _ (h1, 0)) as [h2 trainable] eqn:E2.
  eexists. split; [done|]. split; [reflexivity|].
  cbn [heap_after total_params trainable_params fst snd].
  split; [by rewrite E2|]. split.
  - change total with (h1, total).2. rewrite <- E1, fold_visit_count. done.
  - change trainable with (h2, trainable).2. rewrite <- E2, fold_visit_count.
    simpl. apply sum_list_with_pointwise. intros q.
    change h1 with (h1, total).1. rewrite <- E1. apply fold_visit_numel.
Qed.

(** C5: after the freezing step the elements of the parameters whose
    [requires_grad] is off, plus [trainable_params], make [total_params];
    and [trainable_params] counts the elements of the parameters whose
    [requires_grad] is on.  [model.parameters()] yields each parameter
    object once, and [encoder.layer] is not empty. *)
Theorem frozen_plus_trainable_is_total model h :
  NoDup (parameters model) →
  bert_encoder_layer model ≠ [] →
  ∃ r, freeze model h = Exc.Returned r
       ∧ frozen_params model (heap_after r) + trainable_params r = total_params r
       ∧ trainable_params r =
           sum_list_with (λ p, numel (heap_after r p))
             (List.filter (λ p, requires_grad (heap_after r p)) (parameters model)).
Proof.
  intros Hnd Hne.
  destruct (freeze_returns model h Hne) as (l & r & Hl & Hr & Hh & Htot & Htr).
  exists r. split; [done|].
  destruct (parameters_split model l Hl) as (frozen & Hsplit).
  set (T := concat [l; bert_pooler model; classifier model]) in *.
  assert (Hnumel : ∀ q, numel (heap_after r q) = numel (h q)).
  { intros q. rewrite Hh, fold_visit_numel. simpl. by rewrite fold_visit_numel. }
  assert (HT : ∀ q, q ∈ T → requires_grad (heap_after r q) = true).
  { intros q Hq. rewrite Hh. by apply fold_visit_flag_in. }
  assert (HF : ∀ q, q ∈ frozen → requires_grad (heap_after r q) = false).
  { intros q Hq. rewrite Hh. rewrite Hsplit in Hnd.
    apply list.NoDup_app in Hnd as (_ & Hdisj & _).
    rewrite fold_visit_flag_notin by auto. simpl.
    apply fold_visit_flag_in. rewrite Hsplit. apply elem_of_app. by left. }
  unfold frozen_params. rewrite Htot, Htr, Hsplit, !List.filter_app.
  rewrite (filter_all _ frozen), (filter_none _ T), (filter_none _ frozen),
    (filter_all _ T); try (intros q Hq; rewrite ?HT, ?HF by done; done).
  rewrite app_nil_r, sum_list_with_app. simpl.
  rewrite !(sum_list_with_pointwise _ _ _ Hnumel). done.
Qed.

Lemma frozen_plus_trainable_is_total_witness :
  ∃ r, freeze Concrete.small_bert Concrete.small_heap = Exc.Returned r
       ∧ frozen_params Concrete.small_bert (heap_after r) + trainable_params r
         = total_params r
       ∧ trainable_params r =
           sum_list_with (λ p, numel (heap_after r p))
             (List.filter (λ p, requires_grad (heap_after r p))
                (parameters Concrete.small_bert)).
Proof.
  apply (frozen_plus_trainable_is_total Concrete.small_bert Concrete.small_heap).
  - apply (bool_decide_unpack _). vm_compute. exact I.
  - discriminate.
Defined.

End FreezeFacts.

(** ** Failures *)

Module DownloadFacts.
Import Exc Download.

Lemma raises_with_app env h ops1 ops2 e :
  raises_with env h (ops1 ++ ops2) e ↔
  raises_with env h ops1 e ∨ raises_with env (h ++ ops1) ops2 e.
Proof.
  split.
  - intros (pre & o & post & Heq & He).
    apply app_eq_inv in Heq as [(k & -> & Hk) | (k & -> & ->)].
    + destruct k as [|o' k]; simpl in Hk.
      * subst ops2. right. exists [], o, post. by rewrite !app_nil_r.
      * injection Hk as <- ->. left. by exists pre, o, k.
    + right. exists k, o, post. by rewrite <- app_assoc.
  - intros [(pre & o & post & -> & He) | (pre & o & post & -> & He)].
    + exists pre, o, (post ++ ops2). by rewrite <- app_assoc.
    + exists (ops1 ++ pre), o, post.
      split; [by rewrite <- app_assoc | by rewrite app_assoc].
Qed.

Lemma raises_with_singleton env h o e :
  raises_with env h [o] e ↔ env h o = Some e.
Proof.
  split.
  - intros (pre & o' & post & Heq & He).
    destruct pre as [|? [|? ?]]; simplify_eq/=. by rewrite app_nil_r in He.
  - intros He. exists [], o, []. by rewrite app_nil_r.
Qed.

Lemma raises_with_nil env h e : ¬ raises_with env h [] e.
Proof. intros (pre & o & post & Heq & _). by destruct pre. Qed.

Lemma propagating_ret {A} env (a : A) : propagating env (ret a).
Proof.
  intros h. exists []. simpl. rewrite app_nil_r. split; [done|]. split.
  - intros [e He]. by apply raises_with_nil in He.
  - discriminate.
Qed.

Lemma propagating_perform env o : propagating env (perform env o).
Proof.
  intros h. exists [o]. unfold perform.
  destruct (env h o) as [e|] eqn:He; simpl; (split; [done|]); split.
  - eauto.
  - intros e' [= <-]. by apply raises_with_singleton.
  - intros [e He']. apply raises_with_singleton in He'. congruence.
  - discriminate.
Qed.

Lemma propagating_bind {A B} env (c : M (list op) A) (k : A → M (list op) B) :
  propagating env c → (∀ a, propagating env (k a)) → propagating env (bind c k).
Proof.
  intros Hc Hk h. destruct (Hc h) as (ops1 & Hh1 & Hraise1 & Hfrom1).
  unfold bind. destruct (c h) as [[a|e] h1] eqn:Ec; simpl in *; subst h1.
  - destruct (Hk a (h ++ ops1)) as (ops2 & Hh2 & Hraise2 & Hfrom2).
    exists (ops1 ++ ops2). rewrite Hh2, <- app_assoc. split; [done|]. split.
    + intros [e [He|He]%raises_with_app]; [|by eauto].
      destruct Hraise1 as [? ?]; [by eauto | discriminate].
    + intros e He. apply raises_with_app. right. by apply Hfrom2.
  - exists ops1. split; [done|]. split; [by eauto|].
    intros e' [= <-]. by apply Hfrom1.
Qed.

(** The [with] block closes the archive on the way out and lets the
    exception of its body through. *)
Lemma propagating_with_ZipFile env filename body :
  propagating env body → propagating env (with_ZipFile env filename body).
Proof.
  intros Hbody. unfold with_ZipFile. apply propagating_bind.
  { apply propagating_perform. }
  intros _ h. destruct (Hbody h) as (ops1 & Hh1 & Hraise1 & Hfrom1).
  destruct (propagating_perform env ZipClose (h ++ ops1))
    as (ops2 & Hh2 & Hraise2 & Hfrom2).
  exists (ops1 ++ ops2).
  destruct (body h) as [[[]|e] h1] eqn:Eb; simpl in *; subst h1.
  - rewrite Hh2, <- app_assoc. split; [done|]. split.
    + intros [e [He|He]%raises_with_app]; [|by eauto].
      destruct Hraise1 as [? ?]; [by eauto | discriminate].
    + intros e He. apply raises_with_app. right. by apply Hfrom2.
  - destruct (perform env ZipClose (h ++ ops1)) as [[[]|e'] h2] eqn:Ep;
      simpl in *; subst h2; rewrite <- app_assoc; (split; [done|]); split.
    + eauto.
    + intros e' [= <-]. apply raises_with_app. left. by apply Hfrom1.
    + eauto.
    + intros e'' [= <-]. apply raises_with_app. right. by apply Hfrom2.
Qed.

Lemma propagating_download_and_extract env dataset_url data_dir :
  propagating env (download_and_extract env dataset_url data_dir).
Proof.
  unfold download_and_extract.
  repeat first
    [ apply propagating_perform
    | apply propagating_with_ZipFile
    | apply propagating_bind; [|intros _] ].
Qed.

(** A run in which nothing fails, and one in which the archive is corrupt:
    the archive is still closed, the file is not removed, the exception
    reaches the caller. *)
Example download_succeeds :
  download_and_extract (λ _ _, None) STANFORD_SNLI_URL DATA_DIR [] =
  (Returned tt,
   [Print "Downloading and extracting ...";
    UrlRetrieve STANFORD_SNLI_URL "snli.zip"; ZipOpen "snli.zip";
    ZipExtractAll "data"; ZipClose; OsRemove "snli.zip"; Print "Completed!"]).
Proof. reflexivity. Qed.

Example download_bad_archive :
  download_and_extract
    (λ _ o, match o with
            | ZipExtractAll _ => Some (External "BadZipFile")
            | _ => None
            end)
    STANFORD_SNLI_URL DATA_DIR [] =
  (Raised (External "BadZipFile"),
   [Print "Downloading and extracting ...";
    UrlRetrieve STANFORD_SNLI_URL "snli.zip"; ZipOpen "snli.zip";
    ZipExtractAll "data"; ZipClose]).
Proof. reflexivity. Qed.

End DownloadFacts.

(** ** Evaluation cycle and training loop *)

Module TrainingFacts.
Import Exc Training.

Section Emits.
Context `{Torch}.

Lemma emits_ret {A} (a : A) : emits (ret a) [].
Proof. intros w. exists a, w. by rewrite app_nil_r. Qed.

Lemma emits_invoke c f : emits (invoke c f) [c].
Proof. intros w. by eexists _, _. Qed.

Lemma emits_invoke_with {A} c (f : module → module * A) : emits (invoke_with c f) [c].
Proof. intros w. by eexists _, _. Qed.

Lemma emits_query {A} c (f : module → A) : emits (query c f) [c].
Proof. intros w. by eexists _, _. Qed.

Lemma emits_bind {A B} (c : M World A) (k : A → M World B) cs1 cs2 :
  emits c cs1 → (∀ a, emits (k a) cs2) → emits (bind c k) (cs1 ++ cs2).
Proof.
  intros Hc Hk w. destruct (Hc w) as (a & w1 & Hrun1 & Hcalls1).
  destruct (Hk a w1) as (b & w2 & Hrun2 & Hcalls2).
  exists b, w2. unfold bind. rewrite Hrun1. split; [done|].
  by rewrite Hcalls2, Hcalls1, <- app_assoc.
Qed.

Lemma emits_for_in {A B} (body : A → B → M World B) (per : A → list call) xs acc :
  (∀ x acc, emits (body x acc) (per x)) →
  emits (for_in body xs acc) (concat (map per xs)).
Proof.
  intros Hbody. revert acc. induction xs as [|x xs IH]; intros acc; simpl.
  - apply emits_ret.
  - apply emits_bind; [apply Hbody | apply IH].
Qed.

Lemma emits_for_enumerate {A B} (body : Z → A → B → M World B)
    (per : Z → list call) step xs acc :
  (∀ step x acc, emits (body step x acc) (per step)) →
  emits (for_enumerate body step xs acc)
    (concat (map per (seqZ step (Z.of_nat (length xs))))).
Proof.
  intros Hbody. revert step acc.
  induction xs as [|x xs IH]; intros step acc; simpl length.
  - apply emits_ret.
  - rewrite Nat2Z.inj_succ, seqZ_cons by lia. rewrite Z.pred_succ. simpl.
    apply emits_bind; [apply Hbody|]. intros a.
    replace (Z.succ step) with (step + 1) by lia. apply IH.
Qed.

(** *** [evaluate] *)

Lemma evaluate_loop_run bs arrs w :
  ∃ arrs',
    for_in evaluate_batch bs arrs w =
    (Returned arrs',
     mkWorld (forward_all bs (torch w))
       (calls w ++ replicate (length bs) (call_model false))).
Proof.
  revert arrs w. induction bs as [|b bs IH]; intros arrs w; simpl.
  - exists arrs. unfold ret. rewrite app_nil_r. by destruct w.
  - unfold bind at 1. unfold evaluate_batch at 1.
    unfold bind, invoke_with, ret. cbn [fst snd].
    edestruct IH as [arrs' ->]. exists arrs'. simpl.
    by rewrite <- app_assoc.
Qed.

Lemma evaluate_run d w :
  ∃ metrics,
    evaluate d w =
    (Returned metrics,
     mkWorld (nn_train (forward_all (test_dataloader d) (nn_eval (torch w))))
       (calls w ++ evaluate_calls (length (test_dataloader d)))).
Proof.
  unfold evaluate, bind, invoke, modify at 1.
  edestruct evaluate_loop_run as [arrs ->]. eexists.
  unfold modify, ret. simpl. by rewrite <- !app_assoc.
Qed.

Lemma emits_evaluate d : emits (evaluate d) (evaluate_calls (length (test_dataloader d))).
Proof. intros w. destruct (evaluate_run d w) as [metrics ->]. by eexists _, _. Qed.

Lemma forward_all_parameters bs m :
  (∀ m b, nn_parameters (nn_call false m b).1 = nn_parameters m) →
  nn_parameters (forward_all bs m) = nn_parameters m.
Proof.
  intros Hcall. revert m. induction bs as [|b bs IH]; intros m; simpl; [done|].
  unfold forward_all in *. simpl. by rewrite IH, Hcall.
Qed.

End Emits.

(** C10: [evaluate] returns with every model parameter as it found it and
    with the model in training mode, whatever the mode on entry.  It starts
    with [model.eval()], runs one forward pass per test batch with gradients
    disabled, and ends with [model.train()]; it makes no optimizer call.
    The facts about torch used: [eval()], [train()] and a forward pass under
    [no_grad] leave the parameters alone, and [train()] sets training mode. *)
Theorem evaluate_keeps_parameters_and_restores_training `{Torch}
    (d : Data) (w : World) :
  (∀ m, nn_parameters (nn_eval m) = nn_parameters m) →
  (∀ m, nn_parameters (nn_train m) = nn_parameters m) →
  (∀ m b, nn_parameters (nn_call false m b).1 = nn_parameters m) →
  (∀ m, nn_training (nn_train m) = true) →
  ∃ metrics w',
    evaluate d w = (Returned metrics, w')
    ∧ nn_parameters (torch w') = nn_parameters (torch w)
    ∧ nn_training (torch w') = true
    ∧ calls w' =
        calls w ++ [call_eval]
          ++ replicate (length (test_dataloader d)) (call_model false)
          ++ [call_train]
    ∧ Forall (λ c, is_optimizer_call c = false ∧ c ≠ call_model true
                   ∧ c ≠ call_backward)
        (drop (length (calls w)) (calls w')).
Proof.
  intros Heval Htrain Hcall Hmode.
  destruct (evaluate_run d w) as [metrics Hrun].
  eexists _, _. split; [exact Hrun|]. simpl.
  split; [by rewrite Htrain, forward_all_parameters, Heval|].
  split; [apply Hmode|]. split; [done|].
  rewrite drop_app_length. unfold evaluate_calls.
  apply Forall_app. split; [by repeat constructor|].
  apply Forall_app. split; [|by repeat constructor].
  apply Forall_replicate. done.
Qed.

Lemma evaluate_keeps_parameters_and_restores_training_witness :
  ∃ metrics w',
    @evaluate Concrete.counting_torch (Concrete.small_data 2)
      (@mkWorld Concrete.counting_torch ([3; 4], false) [call_zero_grad])
      = (Returned metrics, w')
    ∧ @nn_parameters Concrete.counting_torch (torch w') = [3; 4]
    ∧ @nn_training Concrete.counting_torch (torch w') = true
    ∧ calls w' =
        [call_zero_grad] ++ [call_eval]
          ++ replicate 2 (call_model false) ++ [call_train]
    ∧ Forall (λ c, is_optimizer_call c = false ∧ c ≠ call_model true
                   ∧ c ≠ call_backward)
        (drop 1 (calls w')).
Proof.
  apply (@evaluate_keeps_parameters_and_restores_training Concrete.counting_torch
           (Concrete.small_data 2)
           (@mkWorld Concrete.counting_torch ([3; 4], false) [call_zero_grad]));
    intros; reflexivity.
Defined.


(** *** The training loop *)

Section Loop.
Context `{Torch}.

Lemma emits_eq {A} (c : M World A) cs cs' : emits c cs → cs = cs' → emits c cs'.
Proof. by intros ? <-. Qed.

Lemma bind_ret_l {A B} (a : A) (k : A → M World B) : bind (ret a) k = k a.
Proof. reflexivity. Qed.

Lemma emits_bind_returns {A B} (c : M World A) (k : A → M World B) a cs :
  (∀ w, c w = (Returned a, w)) → emits (k a) cs → emits (bind c k) cs.
Proof.
  intros Hc Hk w. destruct (Hk w) as (b & w' & Hrun & Hcalls).
  exists b, w'. unfold bind. by rewrite Hc.
Qed.

Lemma py_mod_run (a b : Z) (w : World) :
  b ≠ 0 → py_mod a b w = (Returned (a mod b), w).
Proof. intros Hb. unfold py_mod. by apply Z.eqb_neq in Hb as ->. Qed.

Lemma emits_optimizer_update rate len step :
  rate ≠ 0 →
  emits (optimizer_update rate len step) [optimizer_call_at rate len step].
Proof.
  intros Hr. unfold optimizer_update.
  eapply emits_bind_returns; [intros w; by apply py_mod_run|].
  unfold optimizer_call_at, update_due.
  destruct (_ || _); apply emits_invoke.
Qed.

Lemma emits_report cfg d DELTA epoch step losses :
  LOGGING_INTERVAL cfg ≠ 0 →
  emits (report cfg d DELTA epoch step losses)
    (report_calls cfg (length (test_dataloader d)) epoch step).
Proof.
  intros HL. unfold report, report_calls, logging_due.
  destruct (0 <? step) eqn:Hstep.
  - eapply emits_bind_returns; [intros w; by apply py_mod_run|].
    cbv beta. cbn [andb]. destruct (step mod LOGGING_INTERVAL cfg =? 0).
    + apply emits_bind; [apply emits_query|]. intros _.
      apply emits_bind; [apply emits_evaluate|]. intros _. apply emits_query.
    + apply emits_ret.
  - rewrite bind_ret_l. cbn [andb]. apply emits_ret.
Qed.

Lemma emits_train_batch cfg d DELTA rate epoch step b losses :
  rate ≠ 0 → LOGGING_INTERVAL cfg ≠ 0 →
  emits (train_batch cfg d DELTA rate epoch step b losses)
    (batch_calls cfg rate (len_train_dataloader d)
       (length (test_dataloader d)) epoch step).
Proof.
  intros Hr HL. unfold train_batch, batch_calls.
  eapply emits_eq.
  - apply emits_bind; [apply emits_invoke_with|]. intros outputs.
    apply emits_bind; [apply emits_invoke|]. intros _.
    apply emits_bind; [by apply emits_optimizer_update|]. intros _.
    apply emits_bind; [apply emits_invoke|]. intros _.
    apply emits_bind; [by apply emits_report|]. intros _.
    apply emits_ret.
  - simpl. by rewrite app_nil_r.
Qed.

Lemma emits_train_epoch cfg d DELTA rate epoch :
  rate ≠ 0 → LOGGING_INTERVAL cfg ≠ 0 →
  Z.of_nat (length (train_dataloader d epoch)) = len_train_dataloader d →
  emits (train_epoch cfg d DELTA rate epoch tt)
    (epoch_calls cfg rate (len_train_dataloader d)
       (length (test_dataloader d)) epoch).
Proof.
  intros Hr HL Hlen. unfold train_epoch, epoch_calls. eapply emits_eq.
  - apply emits_bind; [|intros _; apply emits_ret].
    apply emits_for_enumerate with
      (per := batch_calls cfg rate (len_train_dataloader d)
                (length (test_dataloader d)) epoch).
    intros step b losses. by apply emits_train_batch.
  - by rewrite app_nil_r, Hlen.
Qed.

Lemma emits_cell_31 cfg d DELTA rate :
  rate ≠ 0 → LOGGING_INTERVAL cfg ≠ 0 →
  (∀ epoch, Z.of_nat (length (train_dataloader d epoch)) = len_train_dataloader d) →
  emits (cell_31 cfg d DELTA rate)
    (concat (map (epoch_calls cfg rate (len_train_dataloader d)
                    (length (test_dataloader d)))
               (seqZ 1 (EPOCHS cfg)))).
Proof.
  intros Hr HL Hlen. unfold cell_31. apply emits_for_in.
  intros epoch []. by apply emits_train_epoch.
Qed.

Lemma cell_30_run cfg d w :
  len_train_dataloader d ≠ 0 → BATCH_SIZE cfg ≠ 0 →
  VIRTUAL_BATCH_SIZE cfg mod BATCH_SIZE cfg = 0 →
  cell_30 cfg d w =
  (Returned (int_truediv 1 (len_train_dataloader d),
             VIRTUAL_BATCH_SIZE cfg / BATCH_SIZE cfg), w).
Proof.
  intros Hlen HB Hdiv. unfold cell_30.
  apply Z.eqb_neq in Hlen as ->. rewrite bind_ret_l.
  unfold bind at 1. rewrite py_mod_run by done. by rewrite Hdiv.
Qed.

Lemma rate_positive cfg :
  0 < BATCH_SIZE cfg → 0 < VIRTUAL_BATCH_SIZE cfg →
  VIRTUAL_BATCH_SIZE cfg mod BATCH_SIZE cfg = 0 →
  0 < VIRTUAL_BATCH_SIZE cfg / BATCH_SIZE cfg.
Proof.
  intros HB HV Hdiv. apply Z.div_str_pos. split; [done|].
  apply Z.mod_divide in Hdiv; [|lia]. destruct Hdiv as [q Hq].
  assert (0 < q) by nia. nia.
Qed.

End Loop.

(** *** Counting the calls *)

Lemma optimizer_call_at_cases rate len step :
  optimizer_call_at rate len step = call_step
  ∨ optimizer_call_at rate len step = call_virtual_step.
Proof. unfold optimizer_call_at. destruct (update_due _ _ _); auto. Qed.

Lemma filter_optimizer_batch_calls cfg rate len tests epoch step :
  List.filter is_optimizer_call (batch_calls cfg rate len tests epoch step) =
  [optimizer_call_at rate len step].
Proof.
  unfold batch_calls, report_calls, evaluate_calls.
  rewrite List.filter_app.
  replace (List.filter is_optimizer_call (if logging_due cfg step then _ else _))
    with (@nil call).
  - destruct (optimizer_call_at_cases rate len step) as [-> | ->]; done.
  - destruct (logging_due cfg step); [|done].
    rewrite !List.filter_app, filter_replicate_false; done.
Qed.

Lemma filter_engine_batch_calls cfg rate len tests epoch step :
  List.filter is_engine_call (batch_calls cfg rate len tests epoch step) =
  engine_calls_at cfg rate len step.
Proof.
  unfold batch_calls, report_calls, evaluate_calls, engine_calls_at.
  rewrite List.filter_app.
  replace (List.filter is_engine_call (if logging_due cfg step then _ else _))
    with (if logging_due cfg step then [call_get_privacy_spent] else []).
  - destruct (optimizer_call_at_cases rate len step) as [-> | ->]; done.
  - destruct (logging_due cfg step); [|done].
    rewrite !List.filter_app, filter_replicate_false; done.
Qed.

(** *** One update per virtual batch *)

Lemma update_due_inside rate len from count step :
  0 < rate → from mod rate = 0 → count ≤ rate → from + count ≤ len →
  from ≤ step < from + count - 1 →
  update_due rate len step = false.
Proof.
  intros Hr Hfrom Hcount Hlen Hstep. unfold update_due.
  apply orb_false_iff. split; [|lia].
  apply Z.eqb_neq. apply Z.mod_divide in Hfrom; [|lia].
  destruct Hfrom as [q ->].
  replace (step + 1) with ((step + 1 - q * rate) + q * rate) by lia.
  rewrite Z_mod_plus_full, Z.mod_small; lia.
Qed.

Lemma update_due_closing rate len from count :
  0 < rate → from mod rate = 0 → 0 < count →
  count = rate ∨ from + count = len →
  update_due rate len (from + count - 1) = true.
Proof.
  intros Hr Hfrom Hcount [-> | Hlast]; unfold update_due; apply orb_true_iff.
  - left. apply Z.eqb_eq. apply Z.mod_divide in Hfrom; [|lia].
    destruct Hfrom as [q ->].
    replace (q * rate + rate - 1 + 1) with (0 + (q + 1) * rate) by lia.
    by rewrite Z_mod_plus_full.
  - right. lia.
Qed.

(** A group of consecutive batches that starts on a multiple of the rate
    and is either complete or cut short by the end of the epoch has its one
    update on its last batch. *)
Lemma one_update_per_group rate len from count :
  0 < rate → from mod rate = 0 → 0 < count ≤ rate → from + count ≤ len →
  count = rate ∨ from + count = len →
  List.filter (update_due rate len) (seqZ from count) = [from + count - 1].
Proof.
  intros Hr Hfrom Hcount Hlen Hend.
  replace count with ((count - 1) + 1) at 1 by lia.
  rewrite seqZ_app by lia. rewrite List.filter_app.
  rewrite filter_none.
  - change (seqZ (from + (count - 1)) 1) with [from + (count - 1)].
    replace (from + (count - 1)) with (from + count - 1) by lia.
    simpl. rewrite update_due_closing; [done|lia..|done].
  - intros step Hin%elem_of_seqZ.
    apply (update_due_inside rate len from count); [lia | done | lia..].
Qed.

(** C1: with [VIRTUAL_BATCH_SIZE] a multiple of [BATCH_SIZE], an epoch
    makes one optimizer call per physical batch: [optimizer.step()] on the
    batches whose number is a multiple of [virtual_batch_rate] and on the
    last batch of the epoch, [optimizer.virtual_step()] on all the others.
    Every complete run of [virtual_batch_rate] batches holds exactly one
    [step()], and so does the shorter run that may end the epoch.  (The
    bounds keep the float arithmetic of the condition exact.) *)
Theorem update_once_per_virtual_batch `{Torch} (cfg : Config) (d : Data)
    (DELTA : float) (epoch : Z) (w : World) :
  0 < BATCH_SIZE cfg →
  0 < VIRTUAL_BATCH_SIZE cfg →
  VIRTUAL_BATCH_SIZE cfg mod BATCH_SIZE cfg = 0 →
  0 < LOGGING_INTERVAL cfg →
  Z.of_nat (length (train_dataloader d epoch)) = len_train_dataloader d →
  VIRTUAL_BATCH_SIZE cfg < 2 ^ 53 →
  len_train_dataloader d < 2 ^ 53 →
  let rate := VIRTUAL_BATCH_SIZE cfg / BATCH_SIZE cfg in
  let len := len_train_dataloader d in
  ∃ w' new_calls,
    train_epoch cfg d DELTA rate epoch tt w = (Returned tt, w')
    ∧ calls w' = calls w ++ new_calls
    ∧ List.filter is_optimizer_call new_calls =
        map (λ step, if update_due rate len step then call_step
                     else call_virtual_step) (seqZ 0 len)
    ∧ (∀ step, update_due rate len step = true ↔
               (step + 1) mod rate = 0 ∨ step = len - 1)
    ∧ (∀ k, 0 ≤ k → (k + 1) * rate ≤ len →
            List.filter (update_due rate len) (seqZ (k * rate) rate)
            = [(k + 1) * rate - 1])
    ∧ (len mod rate ≠ 0 →
       List.filter (update_due rate len) (seqZ (len / rate * rate) (len mod rate))
       = [len - 1]).
Proof.
  intros HB HV Hdiv HL Hlen _ _ rate len.
  assert (Hrate : 0 < rate) by by apply rate_positive.
  destruct (emits_train_epoch cfg d DELTA rate epoch) with (w := w)
    as ([] & w' & Hrun & Hcalls); [lia | lia | done |].
  exists w', (epoch_calls cfg rate len (length (test_dataloader d)) epoch).
  split; [done|]. split; [done|]. split; [|split; [|split]].
  - unfold epoch_calls. rewrite filter_concat_map.
    erewrite map_ext; [apply concat_map_singleton|].
    intros step. apply filter_optimizer_batch_calls.
  - intros step. unfold update_due.
    rewrite orb_true_iff, !Z.eqb_eq. done.
  - intros k Hk Hfit.
    rewrite (one_update_per_group rate len (k * rate) rate); [f_equal; lia|..].
    + done.
    + by rewrite Z_mod_mult.
    + lia.
    + lia.
    + by left.
  - intros Hrem.
    pose proof (Z.mod_pos_bound len rate Hrate) as Hbound.
    pose proof (Z_div_mod_eq_full len rate) as Hsplit.
    rewrite (one_update_per_group rate len (len / rate * rate) (len mod rate));
      [f_equal; lia|..].
    + done.
    + by rewrite Z_mod_mult.
    + lia.
    + lia.
    + right. lia.
Qed.

Lemma update_once_per_virtual_batch_witness :
  let d := Concrete.small_data 6 in
  ∃ w' new_calls,
    @train_epoch Concrete.counting_torch notebook_config d 0 4 1 tt
      Concrete.initial_world = (Returned tt, w')
    ∧ calls w' = [] ++ new_calls
    ∧ List.filter is_optimizer_call new_calls =
        [call_virtual_step; call_virtual_step; call_virtual_step; call_step;
         call_virtual_step; call_step]
    ∧ (∀ step, update_due 4 6 step = true ↔ (step + 1) mod 4 = 0 ∨ step = 6 - 1)
    ∧ (∀ k, 0 ≤ k → (k + 1) * 4 ≤ 6 →
            List.filter (update_due 4 6) (seqZ (k * 4) 4) = [(k + 1) * 4 - 1])
    ∧ (6 mod 4 ≠ 0 →
       List.filter (update_due 4 6) (seqZ (6 / 4 * 4) (6 mod 4)) = [6 - 1]).
Proof.
  intros d.
  apply (@update_once_per_virtual_batch Concrete.counting_torch
           notebook_config d 0 1 Concrete.initial_world);
    simpl; try lia; reflexivity.
Defined.

(** C8: every physical batch of every epoch makes exactly one optimizer
    call, [step()] or [virtual_step()], and [model.zero_grad()] directly
    after it; the other calls of the batch are neither. *)
Theorem every_batch_one_optimizer_call_then_zero_grad `{Torch}
    (cfg : Config) (d : Data) (DELTA : float) (w : World) :
  0 < BATCH_SIZE cfg →
  0 < VIRTUAL_BATCH_SIZE cfg →
  VIRTUAL_BATCH_SIZE cfg mod BATCH_SIZE cfg = 0 →
  0 < LOGGING_INTERVAL cfg →
  (∀ epoch, Z.of_nat (length (train_dataloader d epoch)) = len_train_dataloader d) →
  let rate := VIRTUAL_BATCH_SIZE cfg / BATCH_SIZE cfg in
  let len := len_train_dataloader d in
  let tests := length (test_dataloader d) in
  ∃ w',
    cell_31 cfg d DELTA rate w = (Returned tt, w')
    ∧ calls w' =
        calls w ++
        concat (map (λ epoch,
                       concat (map (batch_calls cfg rate len tests epoch)
                                 (seqZ 0 len)))
                  (seqZ 1 (EPOCHS cfg)))
    ∧ (∀ epoch step b losses,
         emits (train_batch cfg d DELTA rate epoch step b losses)
           (batch_calls cfg rate len tests epoch step))
    ∧ ∀ epoch step, ∃ c after,
        batch_calls cfg rate len tests epoch step =
          [call_model true; call_backward] ++ [c; call_zero_grad] ++ after
        ∧ (c = call_step ∨ c = call_virtual_step)
        ∧ Forall (λ x, is_optimizer_call x = false ∧ x ≠ call_zero_grad) after.
Proof.
  intros HB HV Hdiv HL Hlen rate len tests.
  assert (Hrate : 0 < rate) by by apply rate_positive.
  destruct (emits_cell_31 cfg d DELTA rate) with (w := w)
    as ([] & w' & Hrun & Hcalls); [lia | lia | done |].
  exists w'. split; [done|]. split; [done|].
  split; [intros; apply emits_train_batch; lia|].
  intros epoch step.
  exists (optimizer_call_at rate len step), (report_calls cfg tests epoch step).
  split; [done|]. split; [apply optimizer_call_at_cases|].
  unfold report_calls, evaluate_calls. destruct (logging_due cfg step); [|done].
  repeat (apply Forall_app; split);
    first [ by apply Forall_replicate | by repeat constructor ].
Qed.

Lemma every_batch_one_optimizer_call_then_zero_grad_witness :
  let d := Concrete.small_data 6 in
  ∃ w',
    @cell_31 Concrete.counting_torch notebook_config d 0 4
      Concrete.initial_world = (Returned tt, w')
    ∧ calls w' =
        [] ++
        concat (map (λ epoch,
                       concat (map (batch_calls notebook_config 4 6 2 epoch)
                                 (seqZ 0 6)))
                  (seqZ 1 3))
    ∧ (∀ epoch step b losses,
         emits (@train_batch Concrete.counting_torch notebook_config d 0 4
                  epoch step b losses)
           (batch_calls notebook_config 4 6 2 epoch step))
    ∧ ∀ epoch step, ∃ c after,
        batch_calls notebook_config 4 6 2 epoch step =
          [call_model true; call_backward] ++ [c; call_zero_grad] ++ after
        ∧ (c = call_step ∨ c = call_virtual_step)
        ∧ Forall (λ x, is_optimizer_call x = false ∧ x ≠ call_zero_grad) after.
Proof.
  intros d.
  apply (@every_batch_one_optimizer_call_then_zero_grad Concrete.counting_torch
           notebook_config d 0 Concrete.initial_world);
    simpl; try lia; intros; reflexivity.
Defined.

(** C7 as stated: every engine method the training cells call is [step]
    or [virtual_step].  Cell 26 calls [attach]. *)
Lemma engine_methods_only_step_counterexample :
  ¬ (∀ c,
       c ∈ calls (@notebook_training Concrete.counting_torch notebook_config
                    (Concrete.small_data 1) Concrete.initial_world).2 →
       is_engine_method c = true →
       c = call_step ∨ c = call_virtual_step).
Proof.
  intros Hall. destruct (Hall call_attach) as [?|?]; [|done|done..].
  apply (bool_decide_unpack _). vm_compute. exact I.
Qed.

(** With the notebook's logging interval an epoch of 1001 batches reports
    once, and asks the engine for the privacy spent. *)
Example notebook_calls_get_privacy_spent :
  call_get_privacy_spent
  ∈ calls (@notebook_training Concrete.counting_torch notebook_config
             (Concrete.small_data 1001) Concrete.initial_world).2.
Proof. apply (bool_decide_unpack _). vm_compute. exact I. Qed.

(** C7, amended: the training cells construct the engine from the
    configuration values, call [attach] once, then on every batch [step] or
    [virtual_step] and, on the batches that report, [get_privacy_spent];
    these are all their calls to the engine, in this order. *)
Theorem engine_calls_of_notebook `{Torch} (cfg : Config) (d : Data) (w : World) :
  0 < BATCH_SIZE cfg →
  0 < VIRTUAL_BATCH_SIZE cfg →
  VIRTUAL_BATCH_SIZE cfg mod BATCH_SIZE cfg = 0 →
  0 < LOGGING_INTERVAL cfg →
  0 < len_train_dataloader d →
  (∀ epoch, Z.of_nat (length (train_dataloader d epoch)) = len_train_dataloader d) →
  ∃ w' new_calls,
    notebook_training cfg d w = (Returned tt, w')
    ∧ calls w' = calls w ++ new_calls
    ∧ List.filter is_engine_call new_calls =
        engine_calls cfg (len_train_dataset d) (len_train_dataloader d)
    ∧ call_attach ∈ new_calls
    ∧ (∀ c, c ∈ new_calls → is_engine_method c = true →
            c = call_attach ∨ c = call_step ∨ c = call_virtual_step
            ∨ c = call_get_privacy_spent).
Proof.
  intros HB HV Hdiv HL Hpos Hlen.
  assert (Hrate : 0 < VIRTUAL_BATCH_SIZE cfg / BATCH_SIZE cfg)
    by by apply rate_positive.
  assert (Hemit : emits (notebook_training cfg d)
            ([call_PrivacyEngine (VIRTUAL_BATCH_SIZE cfg) (len_train_dataset d);
              call_attach]
             ++ concat (map (epoch_calls cfg (VIRTUAL_BATCH_SIZE cfg / BATCH_SIZE cfg)
                               (len_train_dataloader d) (length (test_dataloader d)))
                          (seqZ 1 (EPOCHS cfg))))).
  { unfold notebook_training.
    apply (emits_bind _ _ [_; _]).
    - unfold cell_26. apply (emits_bind _ _ [_] [_]); [apply emits_invoke|].
      intros _. apply emits_invoke.
    - intros _. eapply emits_bind_returns.
      + intros w0. apply cell_30_run; [lia | lia | done].
      + apply emits_cell_31; [lia | lia | done]. }
  destruct (Hemit w) as ([] & w' & Hrun & Hcalls).
  eexists w', _. split; [done|]. split; [done|]. split; [|split].
  - rewrite List.filter_app. unfold engine_calls. f_equal.
    rewrite filter_concat_map. f_equal. apply map_ext. intros epoch.
    unfold epoch_calls. rewrite filter_concat_map. f_equal.
    apply map_ext. intros step. apply filter_engine_batch_calls.
  - apply elem_of_app. left. right. left.
  - intros c _ Hc. destruct c; try discriminate; auto.
Qed.

Lemma engine_calls_of_notebook_witness :
  let d := Concrete.small_data 6 in
  ∃ w' new_calls,
    @notebook_training Concrete.counting_torch notebook_config d
      Concrete.initial_world = (Returned tt, w')
    ∧ calls w' = [] ++ new_calls
    ∧ List.filter is_engine_call new_calls = engine_calls notebook_config 48 6
    ∧ call_attach ∈ new_calls
    ∧ (∀ c, c ∈ new_calls → is_engine_method c = true →
            c = call_attach ∨ c = call_step ∨ c = call_virtual_step
            ∨ c = call_get_privacy_spent).
Proof.
  intros d.
  apply (@engine_calls_of_notebook Concrete.counting_torch notebook_config d
           Concrete.initial_world);
    simpl; try lia; intros; reflexivity.
Defined.

End TrainingFacts.

(** ** More on parsing the frames *)

Module DatasetMore.
Import Dataset DatasetFacts.

Lemma length_append (a b : string) :
  String.length (a +:+ b) = (String.length a + String.length b)%nat.
Proof. induction a as [|c a IH]; simpl; [done|]. by rewrite IH. Qed.

Lemma append_cancel_r (a b t : string) : a +:+ t = b +:+ t → a = b.
Proof.
  revert b. induction a as [|c a IH]; intros [|c' b] Heq; simpl in *.
  - done.
  - apply (f_equal String.length) in Heq.
    rewrite !length_append in Heq. simpl in Heq. lia.
  - apply (f_equal String.length) in Heq.
    rewrite !length_append in Heq. simpl in Heq. lia.
  - injection Heq as -> Heq. f_equal. by apply IH.
Qed.

Lemma format_guid_inj set_type i j :
  Py.isinstance_int i = true → Py.isinstance_int j = true →
  format_guid i set_type = format_guid j set_type → i = j.
Proof.
  unfold format_guid. intros Hi Hj Heq%append_cancel_r.
  destruct i as [|x|], j as [|y|]; try discriminate. simpl in Heq.
  by apply (inj pretty) in Heq as ->.
Qed.

Lemma NoDup_map_inj_on {A B} (f : A → B) (l : list A) :
  (∀ x y, x ∈ l → y ∈ l → f x = f y → x = y) → NoDup l → NoDup (map f l).
Proof.
  induction l as [|x l IH]; simpl; [constructor|].
  intros Hinj. rewrite !list.NoDup_cons. intros [Hx Hl]. split.
  - rewrite list_elem_of_In, in_map_iff. intros (y & Heq & Hy).
    apply list_elem_of_In in Hy.
    apply Hinj in Heq as ->; [done | by right | left].
  - apply IH; [|done]. intros y z Hy Hz. apply Hinj; by right.
Qed.

Lemma NoDup_map_fst_filter {A B} (f : A * B → bool) (l : list (A * B)) :
  NoDup (map fst l) → NoDup (map fst (List.filter f l)).
Proof.
  induction l as [|x l IH]; simpl; [done|].
  rewrite list.NoDup_cons. intros [Hx Hl]. destruct (f x); simpl; [|by apply IH].
  apply list.NoDup_cons. split; [|by apply IH].
  rewrite list_elem_of_In, in_map_iff. intros (y & Heq & Hy).
  apply filter_In in Hy as [Hy _]. apply Hx.
  rewrite list_elem_of_In, in_map_iff. by exists y.
Qed.

(** X1: parsing a frame made of two parts gives the examples of the first part
    followed by those of the second: no row influences another. *)
Theorem create_examples_app df1 df2 set_type :
  _create_examples (df1 ++ df2) set_type =
  _create_examples df1 set_type ++ _create_examples df2 set_type.
Proof.
  rewrite !create_examples_filter_map. unfold iterrows.
  by rewrite List.filter_app, map_app.
Qed.

(** X2: there are never more examples than rows, and there is one example per
    row exactly when every row has a known label and two string
    sentences. *)
Theorem create_examples_length df set_type :
  (length (_create_examples df set_type) ≤ length df)%nat
  ∧ (length (_create_examples df set_type) = length df ↔
     Forall (λ ir, gold_label ir.2 ∈ LABEL_LIST
                   ∧ Py.isinstance_str (sentence1 ir.2) = true
                   ∧ Py.isinstance_str (sentence2 ir.2) = true) df).
Proof.
  rewrite create_examples_filter_map, length_map. unfold iterrows.
  induction df as [|ir df [IHle IHeq]]; simpl.
  - split; [done|]. split; [constructor | done].
  - destruct (retained ir.2) eqn:Hr; simpl.
    + split; [lia|]. rewrite list.Forall_cons, <- IHeq, <- retained_true, Hr.
      split; [intros [= ->]; done | intros [_ ->]; done].
    + split; [lia|]. split; [lia|].
      rewrite list.Forall_cons, <- retained_true, Hr. intros [? _]. done.
Qed.

(** X3: when the index labels of the frame are distinct integers, as
    [pd.read_csv] numbers the rows, the guids of the examples are distinct. *)
Theorem create_examples_guid_distinct df set_type :
  NoDup (map fst (iterrows df)) →
  Forall (λ ir, Py.isinstance_int ir.1 = true) (iterrows df) →
  NoDup (map guid (_create_examples df set_type)).
Proof.
  intros Hnd Hint. rewrite create_examples_filter_map, map_map. simpl.
  rewrite <- (map_map fst (λ i, format_guid i set_type)).
  apply NoDup_map_inj_on; [|by apply NoDup_map_fst_filter].
  rewrite list.Forall_forall in Hint.
  assert (Hlab : ∀ i, i ∈ map fst (List.filter (λ ir, retained ir.2) (iterrows df))
                      → Py.isinstance_int i = true).
  { intros i (ir & <- & Hir)%list_elem_of_In%in_map_iff.
    apply filter_In in Hir as [Hir _]. apply Hint. by apply list_elem_of_In. }
  intros i j Hi Hj. apply format_guid_inj; by apply Hlab.
Qed.

Lemma create_examples_guid_distinct_witness :
  let good := mkRow (Py.Str "A man sleeps.") (Py.Str "A man rests.")
                (Py.Str "entailment") in
  NoDup (map guid (_create_examples
                     [(Py.Int 0, good); (Py.Int 1, good); (Py.Int 10, good)] "dev")).
Proof.
  intros good.
  apply (create_examples_guid_distinct
           [(Py.Int 0, good); (Py.Int 1, good); (Py.Int 10, good)] "dev").
  - apply (bool_decide_unpack _). vm_compute. exact I.
  - by repeat constructor.
Defined.

(** The labels must be of one kind: the integer 1 and the string ["1"] are
    distinct labels with one guid. *)
Example mixed_labels_share_a_guid :
  format_guid (Py.Int 1) "train" = format_guid (Py.Str "1") "train".
Proof. reflexivity. Qed.

End DatasetMore.

(** ** Building the tensor dataset *)

Module TensorDataFacts.
Import Features TensorData.

Lemma lookup_map {A B} (g : A → B) (l : list A) i :
  map g l !! i = g <$> l !! i.
Proof. revert i. induction l as [|x l IH]; intros [|i]; simpl; auto. Qed.

Lemma rectangular_same_width {A} (g : A → list Z) (l : list A) n :
  (∀ x, x ∈ l → length (g x) = n) → rectangular (map g l) = true.
Proof.
  intros Hn. destruct l as [|x l]; simpl; [done|].
  apply forallb_forall. intros r (y & <- & Hy)%in_map_iff.
  apply Nat.eqb_eq. rewrite (Hn x) by left.
  apply Hn. right. by apply list_elem_of_In.
Qed.

Lemma rectangular_widths (rows : list (list Z)) r r' :
  rectangular rows = true → r ∈ rows → r' ∈ rows → length r = length r'.
Proof.
  destruct rows as [|r0 rest]; simpl; [by intros _ ?%elem_of_nil|].
  intros Hrect Hr Hr'.
  assert (Hall : ∀ x, x ∈ r0 :: rest → length x = length r0).
  { intros x [->|Hx]%elem_of_cons; [done|].
    rewrite forallb_forall in Hrect. apply Nat.eqb_eq, Hrect.
    by apply list_elem_of_In. }
  by rewrite (Hall r), (Hall r').
Qed.

Lemma all_fit {A} (g : A → list Z) (l : list A) :
  (∀ x, x ∈ l → forallb fits_long (g x) = true) →
  forallb (forallb fits_long) (map g l) = true.
Proof.
  intros Hfit. apply forallb_forall. intros r (x & <- & Hx)%in_map_iff.
  apply Hfit. by apply list_elem_of_In.
Qed.

Lemma torch_tensor_2d_returns {A} (g : A → list Z) (l : list A) n :
  (∀ x, x ∈ l → length (g x) = n) →
  (∀ x, x ∈ l → forallb fits_long (g x) = true) →
  torch_tensor_2d (map g l) = Exc.Returned (map g l).
Proof.
  intros Hn Hfit. unfold torch_tensor_2d.
  by rewrite (rectangular_same_width g l n), all_fit.
Qed.

(** X4: features whose sequences all have one length and whose entries fit
    [torch.long] make a dataset: it has one item per feature, item [i] holds
    the three sequences and the label of feature [i], and an index past the
    end raises [IndexError]. *)
Theorem features_to_dataset_items (features : list InputFeatures) (n : nat) :
  Forall (fixed_length n) features →
  Forall fits_tensor features →
  ∃ ds,
    _features_to_dataset features = Exc.Returned ds
    ∧ dataset_len ds = length features
    ∧ (∀ i f, features !! i = Some f →
         dataset_getitem ds i =
         Exc.Returned (input_ids f, attention_mask f, token_type_ids f,
                       feature_label f))
    ∧ (∀ i, (length features ≤ i)%nat →
         dataset_getitem ds i = Exc.Raised Exc.IndexError).
Proof.
  rewrite !list.Forall_forall. intros Hlen Hfit.
  unfold _features_to_dataset.
  rewrite (torch_tensor_2d_returns input_ids features n);
    [|intros f Hf; apply (Hlen f Hf) | intros f Hf; apply (Hfit f Hf)].
  rewrite (torch_tensor_2d_returns attention_mask features n);
    [|intros f Hf; apply (Hlen f Hf) | intros f Hf; apply (Hfit f Hf)].
  rewrite (torch_tensor_2d_returns token_type_ids features n);
    [|intros f Hf; apply (Hlen f Hf) | intros f Hf; apply (Hfit f Hf)].
  unfold torch_tensor_1d. simpl.
  replace (forallb fits_long (map feature_label features)) with true.
  2:{ symmetry. apply forallb_forall. intros z (f & <- & Hf)%in_map_iff.
      apply list_elem_of_In in Hf. apply (Hfit f Hf). }
  cbn [and_then]. unfold TensorDataset_init.
  rewrite !length_map, !Nat.eqb_refl. simpl.
  eexists. split; [reflexivity|]. unfold dataset_len, dataset_getitem. simpl.
  split; [by rewrite length_map|]. split.
  - intros i f Hi. by rewrite !lookup_map, Hi.
  - intros i Hi. by rewrite !lookup_map, (lookup_ge_None_2 features i).
Qed.

Lemma features_to_dataset_items_witness :
  let f1 := mkInputFeatures [101; 7; 102] [1; 1; 1] [0; 0; 0] 2 in
  let f2 := mkInputFeatures [101; 102; 0] [1; 1; 0] [0; 0; 0] 0 in
  ∃ ds,
    _features_to_dataset [f1; f2] = Exc.Returned ds
    ∧ dataset_len ds = length [f1; f2]
    ∧ (∀ i f, [f1; f2] !! i = Some f →
         dataset_getitem ds i =
         Exc.Returned (input_ids f, attention_mask f, token_type_ids f,
                       feature_label f))
    ∧ (∀ i, (length [f1; f2] ≤ i)%nat →
         dataset_getitem ds i = Exc.Raised Exc.IndexError).
Proof.
  intros f1 f2.
  apply (features_to_dataset_items [f1; f2] 3);
    repeat (constructor; [by repeat split|]); constructor.
Defined.

(** X5: two features whose [input_ids] differ in length cannot be stacked:
    [_features_to_dataset] raises. *)
Theorem features_to_dataset_ragged (features : list InputFeatures) i j f g :
  features !! i = Some f →
  features !! j = Some g →
  length (input_ids f) ≠ length (input_ids g) →
  ∃ e, _features_to_dataset features = Exc.Raised e.
Proof.
  intros Hf Hg Hne. unfold _features_to_dataset, torch_tensor_2d at 1.
  destruct (rectangular (map input_ids features)) eqn:Hrect.
  - exfalso. apply Hne.
    apply (rectangular_widths (map input_ids features)); [done|..].
    + apply list_elem_of_In, in_map, list_elem_of_In. by eapply list_elem_of_lookup_2.
    + apply list_elem_of_In, in_map, list_elem_of_In. by eapply list_elem_of_lookup_2.
  - simpl. by eexists.
Qed.

Lemma features_to_dataset_ragged_witness :
  ∃ e,
    _features_to_dataset
      [mkInputFeatures [101; 7; 102] [1; 1; 1] [0; 0; 0] 2;
       mkInputFeatures [101; 102] [1; 1; 0] [0; 0; 0] 0] = Exc.Raised e.
Proof.
  apply (features_to_dataset_ragged _ 0%nat 1%nat
           (mkInputFeatures [101; 7; 102] [1; 1; 1] [0; 0; 0] 2)
           (mkInputFeatures [101; 102] [1; 1; 0] [0; 0; 0] 0));
    [reflexivity | reflexivity | simpl; lia].
Defined.

End TensorDataFacts.

(** ** More on layer freezing *)

Module FreezeMore.
Import Freeze FreezeFacts.
Local Open Scope nat_scope.

Lemma fold_visit_notin_same b ps st q :
  q ∉ ps → (fold_left (visit b) ps st).1 q = st.1 q.
Proof.
  revert st. induction ps as [|p ps IH]; intros st Hq; simpl; [done|].
  apply not_elem_of_cons in Hq as [Hne Hq]. rewrite IH by done.
  unfold visit, set_requires_grad. cbn [fst snd]. by rewrite fn_lookup_insert_ne.
Qed.

Lemma param_state_eq (a b : param_state) :
  numel a = numel b → requires_grad a = requires_grad b → a = b.
Proof. destruct a, b. simpl. by intros -> ->. Qed.

(** What the freezing step leaves behind, parameter by parameter. *)
Lemma freeze_heap_after model h :
  bert_encoder_layer model ≠ [] →
  ∃ r l,
    freeze model h = Exc.Returned r
    ∧ list.last (bert_encoder_layer model) = Some l
    ∧ total_params r = sum_list_with (λ p, numel (h p)) (parameters model)
    ∧ trainable_params r =
        sum_list_with (λ p, numel (h p)) (l ++ bert_pooler model ++ classifier model)
    ∧ (∀ p, numel (heap_after r p) = numel (h p))
    ∧ (∀ p, p ∈ l ++ bert_pooler model ++ classifier model →
            p ∈ parameters model ∧ requires_grad (heap_after r p) = true)
    ∧ (∀ p, p ∈ parameters model →
            p ∉ l ++ bert_pooler model ++ classifier model →
            requires_grad (heap_after r p) = false)
    ∧ (∀ p, p ∉ parameters model → heap_after r p = h p).
Proof.
  intros Hne.
  destruct (freeze_returns model h Hne) as (l & r & Hl & Hr & Hh & Htot & Htr).
  destruct (parameters_split model l Hl) as (frozen & Hsplit).
  assert (HT : concat [l; bert_pooler model; classifier model]
               = l ++ bert_pooler model ++ classifier model).
  { simpl. by rewrite app_nil_r. }
  rewrite HT in *. exists r, l.
  split; [done|]. split; [done|]. split; [done|]. split; [done|].
  split; [|split; [|split]].
  - intros p. rewrite Hh, fold_visit_numel. simpl. by rewrite fold_visit_numel.
  - intros p Hp. split.
    + rewrite Hsplit. apply elem_of_app. by right.
    + rewrite Hh. by apply fold_visit_flag_in.
  - intros p Hp Hnot. rewrite Hh, fold_visit_flag_notin by done. simpl.
    by apply fold_visit_flag_in.
  - intros p Hp. rewrite Hh, fold_visit_notin_same; simpl.
    + by apply fold_visit_notin_same.
    + intros Hin. apply Hp. rewrite Hsplit. apply elem_of_app. by right.
Qed.

(** X6: after the freezing step a parameter of the model requires gradients
    exactly when it belongs to the last encoder layer, the pooler or the
    classifier: the embeddings and the other encoder layers are frozen
    whatever their flags were. *)
Theorem freeze_trains_only_upper_layers model h :
  bert_encoder_layer model ≠ [] →
  ∃ r l,
    freeze model h = Exc.Returned r
    ∧ list.last (bert_encoder_layer model) = Some l
    ∧ ∀ p, p ∈ parameters model →
        (requires_grad (heap_after r p) = true ↔
         p ∈ l ++ bert_pooler model ++ classifier model).
Proof.
  intros Hne.
  destruct (freeze_heap_after model h Hne)
    as (r & l & Hr & Hl & _ & _ & _ & Hon & Hoff & _).
  exists r, l. split; [done|]. split; [done|]. intros p Hp. split.
  - intros Hflag.
    destruct (decide (p ∈ l ++ bert_pooler model ++ classifier model)) as [|Hnot];
      [done|].
    rewrite (Hoff p Hp Hnot) in Hflag. discriminate.
  - intros Hin. by apply Hon.
Qed.

Lemma freeze_trains_only_upper_layers_witness :
  ∃ r l,
    freeze Concrete.small_bert Concrete.small_heap = Exc.Returned r
    ∧ list.last (bert_encoder_layer Concrete.small_bert) = Some l
    ∧ ∀ p, p ∈ parameters Concrete.small_bert →
        (requires_grad (heap_after r p) = true ↔
         p ∈ l ++ bert_pooler Concrete.small_bert ++ classifier Concrete.small_bert).
Proof.
  apply (freeze_trains_only_upper_layers Concrete.small_bert Concrete.small_heap).
  discriminate.
Defined.

(** X7: the freezing step changes no element count, and leaves every parameter
    object that is not one of the model's exactly as it was. *)
Theorem freeze_touches_only_flags_of_model model h :
  bert_encoder_layer model ≠ [] →
  ∃ r,
    freeze model h = Exc.Returned r
    ∧ (∀ p, numel (heap_after r p) = numel (h p))
    ∧ (∀ p, p ∉ parameters model → heap_after r p = h p).
Proof.
  intros Hne.
  destruct (freeze_heap_after model h Hne)
    as (r & l & Hr & _ & _ & _ & Hnumel & _ & _ & Hframe).
  by exists r.
Qed.

Lemma freeze_touches_only_flags_of_model_witness :
  ∃ r,
    freeze Concrete.small_bert Concrete.small_heap = Exc.Returned r
    ∧ (∀ p, numel (heap_after r p) = numel (Concrete.small_heap p))
    ∧ (∀ p, p ∉ parameters Concrete.small_bert →
            heap_after r p = Concrete.small_heap p).
Proof.
  apply (freeze_touches_only_flags_of_model Concrete.small_bert Concrete.small_heap).
  discriminate.
Defined.

(** X8: running the freezing step again changes nothing: the same flags on
    every parameter object and the same two counts. *)
Theorem freeze_idempotent model h :
  bert_encoder_layer model ≠ [] →
  ∃ r r',
    freeze model h = Exc.Returned r
    ∧ freeze model (heap_after r) = Exc.Returned r'
    ∧ (∀ p, heap_after r' p = heap_after r p)
    ∧ total_params r' = total_params r
    ∧ trainable_params r' = trainable_params r.
Proof.
  intros Hne.
  destruct (freeze_heap_after model h Hne)
    as (r & l & Hr & Hl & Htot & Htr & Hnumel & Hon & Hoff & Hframe).
  destruct (freeze_heap_after model (heap_after r) Hne)
    as (r' & l' & Hr' & Hl' & Htot' & Htr' & Hnumel' & Hon' & Hoff' & Hframe').
  assert (l' = l) as -> by congruence.
  exists r, r'. split; [done|]. split; [done|]. split; [|split].
  - intros p. destruct (decide (p ∈ parameters model)) as [Hp|Hp].
    + apply param_state_eq; [apply Hnumel'|].
      destruct (decide (p ∈ l ++ bert_pooler model ++ classifier model)) as [Hin|Hnot].
      * by rewrite (proj2 (Hon p Hin)), (proj2 (Hon' p Hin)).
      * by rewrite (Hoff p Hp Hnot), (Hoff' p Hp Hnot).
    + by apply Hframe'.
  - rewrite Htot', Htot. by apply sum_list_with_pointwise.
  - rewrite Htr', Htr. by apply sum_list_with_pointwise.
Qed.

Lemma freeze_idempotent_witness :
  ∃ r r',
    freeze Concrete.small_bert Concrete.small_heap = Exc.Returned r
    ∧ freeze Concrete.small_bert (heap_after r) = Exc.Returned r'
    ∧ (∀ p, heap_after r' p = heap_after r p)
    ∧ total_params r' = total_params r
    ∧ trainable_params r' = trainable_params r.
Proof.
  apply (freeze_idempotent Concrete.small_bert Concrete.small_heap). discriminate.
Defined.

End FreezeMore.

(** ** More on the download *)

Module DownloadMore.
Import Exc Download.

Ltac ask_env env :=
  match goal with
  | |- context [env ?h ?o] => destruct (env h o) eqn:?
  end.

Ltac run_download env :=
  unfold download_and_extract, with_ZipFile, bind, perform;
  repeat (ask_env env; cbn [fst snd]);
  rewrite <- ?app_assoc; cbn [app].

Ltac split_trace Heq Henv :=
  repeat
    match type of Heq with
    | _ :: _ = ?pre ++ _ :: _ =>
        destruct pre as [|? pre]; simpl in Heq;
        [ injection Heq as <- <-; rewrite <- ?app_assoc in Henv;
          cbn [app] in Henv; rewrite ?app_nil_r in Henv
        | injection Heq as <- Heq ]
    end.

(** A failing call ends the run: nothing is attempted after it, except the
    close of the archive when the extraction failed; and the run raises. *)
Lemma download_stops_at_failure env dataset_url data_dir h :
  ∃ ops,
    (download_and_extract env dataset_url data_dir h).2 = h ++ ops
    ∧ ∀ pre o post e,
        ops = pre ++ o :: post → env (h ++ pre) o = Some e →
        (∃ e', (download_and_extract env dataset_url data_dir h).1 = Raised e')
        ∧ (post = [] ∨ (o = ZipExtractAll data_dir ∧ post = [ZipClose])).
Proof.
  run_download env; rewrite <- ?app_assoc in *; cbn [app] in *;
    (eexists; split; [reflexivity|]); intros pre o post e' Heq Henv;
    split_trace Heq Henv;
    first [ congruence | by destruct pre
          | split; [by eexists | first [by left | by right]] ].
Qed.

(** X9: the calls of [download_and_extract] come in one order, and the run
    stops at the first that fails, except that an opened archive is closed
    before the exception leaves.  What was attempted is a beginning of the
    full sequence, never empty and never ending on the extraction; a run
    that returns has made the full sequence; a call that fails makes the
    run raise and is the last one attempted, but for the close that follows
    a failed extraction. *)
Theorem download_and_extract_order env dataset_url data_dir h :
  let run := download_and_extract env dataset_url data_dir h in
  let full := [Print "Downloading and extracting ...";
               UrlRetrieve dataset_url "snli.zip"; ZipOpen "snli.zip";
               ZipExtractAll data_dir; ZipClose; OsRemove "snli.zip";
               Print "Completed!"] in
  ∃ ops,
    run.2 = h ++ ops
    ∧ ops `prefix_of` full
    ∧ ops ≠ []
    ∧ length ops ≠ 4%nat
    ∧ (run.1 = Returned tt → ops = full)
    ∧ (∀ pre o post e,
         ops = pre ++ o :: post → env (h ++ pre) o = Some e →
         (∃ e', run.1 = Raised e')
         ∧ (post = [] ∨ (o = ZipExtractAll data_dir ∧ post = [ZipClose]))).
Proof.
  intros run full. subst run full.
  destruct (download_stops_at_failure env dataset_url data_dir h)
    as (ops & Hops & Hstop).
  exists ops. split; [done|].
  cut (ops `prefix_of` [Print "Downloading and extracting ...";
                        UrlRetrieve dataset_url "snli.zip"; ZipOpen "snli.zip";
                        ZipExtractAll data_dir; ZipClose; OsRemove "snli.zip";
                        Print "Completed!"]
       ∧ ops ≠ [] ∧ length ops ≠ 4%nat
       ∧ ((download_and_extract env dataset_url data_dir h).1 = Returned tt →
          ops = [Print "Downloading and extracting ...";
                 UrlRetrieve dataset_url "snli.zip"; ZipOpen "snli.zip";
                 ZipExtractAll data_dir; ZipClose; OsRemove "snli.zip";
                 Print "Completed!"])).
  { intros (? & ? & ? & ?). do 4 (split; [done|]). exact Hstop. }
  clear Hstop. revert Hops. run_download env; intros Hops;
    apply app_inv_head in Hops; subst ops;
    (split; [by eexists|]); (split; [done|]); (split; [simpl; lia|]);
    first [discriminate | done].
Qed.

Lemma nest3 (h : list op) a b c : h ++ [a; b; c] = ((h ++ [a]) ++ [b]) ++ [c].
Proof. by rewrite <- !app_assoc. Qed.

Lemma nest4 (h : list op) a b c d :
  h ++ [a; b; c; d] = (((h ++ [a]) ++ [b]) ++ [c]) ++ [d].
Proof. by rewrite <- !app_assoc. Qed.

Lemma nest5 (h : list op) a b c d e :
  h ++ [a; b; c; d; e] = ((((h ++ [a]) ++ [b]) ++ [c]) ++ [d]) ++ [e].
Proof. by rewrite <- !app_assoc. Qed.

(** X10: the downloaded archive is removed only after it has been extracted and
    closed without error, and [Completed!] is printed only after it has been
    removed; an archive whose extraction was attempted is closed, whether
    the extraction failed or not. *)
Theorem download_and_extract_cleanup env dataset_url data_dir h :
  let run := download_and_extract env dataset_url data_dir h in
  let opened := [Print "Downloading and extracting ...";
                 UrlRetrieve dataset_url "snli.zip"; ZipOpen "snli.zip"] in
  ∃ ops,
    run.2 = h ++ ops
    ∧ (ZipExtractAll data_dir ∈ ops → ZipClose ∈ ops)
    ∧ (OsRemove "snli.zip" ∈ ops →
       env (h ++ opened) (ZipExtractAll data_dir) = None
       ∧ env (h ++ opened ++ [ZipExtractAll data_dir]) ZipClose = None)
    ∧ (Print "Completed!" ∈ ops →
       env (h ++ opened ++ [ZipExtractAll data_dir; ZipClose])
         (OsRemove "snli.zip") = None).
Proof.
  intros run opened. subst run opened. cbn [app].
  rewrite nest3, nest4, nest5. run_download env;
    (eexists; split; [reflexivity|]);
    (split; [|split]); intros Hin;
    first
      [ done
      | by split
      | by repeat first [apply list_elem_of_here | apply list_elem_of_further]
      | exfalso;
        repeat (apply elem_of_cons in Hin as [Hin|Hin]; [discriminate Hin|]);
        by apply elem_of_nil in Hin ].
Qed.

End DownloadMore.

(** ** More on the evaluation cycle and the training loop *)

Module TrainingMore.
Import Exc Training Tally TrainingFacts.

Section Runs.
Context `{Torch}.

Lemma evaluate_loop_outputs bs arrs w :
  for_in evaluate_batch bs arrs w =
  (Returned (arrs.1 ++ map fst (eval_outputs bs (torch w)),
             arrs.2 ++ map snd (eval_outputs bs (torch w))),
   mkWorld (forward_all bs (torch w))
     (calls w ++ replicate (length bs) (call_model false))).
Proof.
  revert arrs w. induction bs as [|b bs IH]; intros arrs w; simpl.
  - unfold ret. rewrite !app_nil_r. by destruct arrs, w.
  - unfold bind at 1. unfold evaluate_batch at 1.
    unfold bind, invoke_with, ret. cbn [fst snd].
    rewrite IH. cbn [fst snd torch calls].
    by rewrite <- !app_assoc.
Qed.

Lemma emits_notebook_training cfg d :
  0 < BATCH_SIZE cfg →
  0 < VIRTUAL_BATCH_SIZE cfg →
  VIRTUAL_BATCH_SIZE cfg mod BATCH_SIZE cfg = 0 →
  0 < LOGGING_INTERVAL cfg →
  0 < len_train_dataloader d →
  (∀ epoch, Z.of_nat (length (train_dataloader d epoch)) = len_train_dataloader d) →
  emits (notebook_training cfg d)
    ([call_PrivacyEngine (VIRTUAL_BATCH_SIZE cfg) (len_train_dataset d);
      call_attach]
     ++ concat (map (epoch_calls cfg (VIRTUAL_BATCH_SIZE cfg / BATCH_SIZE cfg)
                       (len_train_dataloader d) (length (test_dataloader d)))
                  (seqZ 1 (EPOCHS cfg)))).
Proof.
  intros HB HV Hdiv HL Hpos Hlen.
  assert (Hrate : 0 < VIRTUAL_BATCH_SIZE cfg / BATCH_SIZE cfg)
    by by apply rate_positive.
  unfold notebook_training. apply (emits_bind _ _ [_; _]).
  - unfold cell_26. apply (emits_bind _ _ [_] [_]); [apply emits_invoke|].
    intros _. apply emits_invoke.
  - intros _. eapply emits_bind_returns.
    + intros w0. apply cell_30_run; [lia | lia | done].
    + apply emits_cell_31; [lia | lia | done].
Qed.

End Runs.

(** X11: [evaluate] reports the plain means, over the test batches, of the loss
    and of the accuracy of each batch, every batch weighing the same; the
    forward passes run one after the other from the model put in evaluation
    mode. *)
Theorem evaluate_averages_over_batches `{Torch} (d : Data) (w : World) :
  let outs := eval_outputs (test_dataloader d) (nn_eval (torch w)) in
  (evaluate d w).1 = Returned (np_mean (map fst outs), np_mean (map snd outs))
  ∧ length outs = length (test_dataloader d).
Proof.
  intros outs. subst outs. split.
  - unfold evaluate, bind, invoke, modify at 1.
    rewrite evaluate_loop_outputs. reflexivity.
  - generalize (nn_eval (torch w)).
    induction (test_dataloader d) as [|b bs IH]; intros m; simpl; [done|].
    by rewrite IH.
Qed.

(** *** Counting updates *)

Lemma filter_length_split {A} (f : A → bool) (l : list A) :
  (length (List.filter f l) + length (List.filter (λ x, negb (f x)) l))%nat
  = length l.
Proof.
  induction l as [|x l IH]; simpl; [done|].
  destruct (f x); simpl; lia.
Qed.

Lemma length_concat_if {A B} (f : A → bool) (y : B) (l : list A) :
  length (concat (map (λ x, if f x then [y] else []) l))
  = length (List.filter f l).
Proof.
  induction l as [|x l IH]; simpl; [done|].
  destruct (f x); simpl; by rewrite IH.
Qed.

Lemma length_concat_const {A B} (g : A → list B) (c : nat) (l : list A) :
  (∀ x, length (g x) = c) → length (concat (map g l)) = (length l * c)%nat.
Proof.
  intros Hg. induction l as [|x l IH]; simpl; [done|].
  by rewrite length_app, Hg, IH.
Qed.

Lemma count_step_batch_calls cfg rate len tests epoch step :
  List.filter (λ x, bool_decide (x = call_step))
    (batch_calls cfg rate len tests epoch step)
  = if update_due rate len step then [call_step] else [].
Proof.
  unfold batch_calls, report_calls, evaluate_calls, optimizer_call_at.
  rewrite List.filter_app.
  replace (List.filter _ (if logging_due cfg step then _ else _)) with (@nil call).
  - by destruct (update_due rate len step).
  - destruct (logging_due cfg step); [|done].
    rewrite !List.filter_app, filter_replicate_false; done.
Qed.

Lemma count_virtual_step_batch_calls cfg rate len tests epoch step :
  List.filter (λ x, bool_decide (x = call_virtual_step))
    (batch_calls cfg rate len tests epoch step)
  = if negb (update_due rate len step) then [call_virtual_step] else [].
Proof.
  unfold batch_calls, report_calls, evaluate_calls, optimizer_call_at.
  rewrite List.filter_app.
  replace (List.filter _ (if logging_due cfg step then _ else _)) with (@nil call).
  - by destruct (update_due rate len step).
  - destruct (logging_due cfg step); [|done].
    rewrite !List.filter_app, filter_replicate_false; done.
Qed.

Lemma count_zero_grad_batch_calls cfg rate len tests epoch step :
  List.filter (λ x, bool_decide (x = call_zero_grad))
    (batch_calls cfg rate len tests epoch step)
  = [call_zero_grad].
Proof.
  unfold batch_calls, report_calls, evaluate_calls.
  rewrite List.filter_app.
  replace (List.filter _ (if logging_due cfg step then _ else _)) with (@nil call).
  - by destruct (optimizer_call_at_cases rate len step) as [-> | ->].
  - destruct (logging_due cfg step); [|done].
    rewrite !List.filter_app, filter_replicate_false; done.
Qed.

(** Whole groups of [rate] batches from the start of the epoch hold one
    update each. *)
Lemma updates_in_whole_groups rate len (k : nat) :
  0 < rate → Z.of_nat k * rate ≤ len →
  length (List.filter (update_due rate len) (seqZ 0 (Z.of_nat k * rate))) = k.
Proof.
  intros Hr. induction k as [|k IH]; intros Hfit; [done|].
  replace (Z.of_nat (S k) * rate) with (Z.of_nat k * rate + rate) in * by lia.
  rewrite seqZ_app, List.filter_app, length_app by lia.
  rewrite IH by lia. rewrite Z.add_0_l.
  rewrite (one_update_per_group rate len (Z.of_nat k * rate) rate);
    [simpl; lia | done | by rewrite Z_mod_mult | lia | lia | by left].
Qed.

Lemma updates_in_epoch rate len :
  0 < rate → 0 ≤ len →
  length (List.filter (update_due rate len) (seqZ 0 len))
  = Z.to_nat (ceil_div len rate).
Proof.
  intros Hr Hlen.
  pose proof (Z.mod_pos_bound len rate Hr) as Hm.
  pose proof (Z_div_mod_eq_full len rate) as Hsplit.
  assert (Hq : 0 ≤ len / rate) by (apply Z.div_pos; lia).
  replace len with (Z.of_nat (Z.to_nat (len / rate)) * rate + len mod rate) at 2
    by (rewrite Z2Nat.id by done; lia).
  rewrite seqZ_app, List.filter_app, length_app by lia.
  rewrite updates_in_whole_groups by (try rewrite Z2Nat.id by done; nia).
  rewrite Z.add_0_l, Z2Nat.id by done.
  unfold ceil_div. destruct (decide (len mod rate = 0)) as [H0|Hne].
  - rewrite H0. change (seqZ _ 0) with (@nil Z). simpl.
    replace ((len + rate - 1) / rate) with (len / rate); [lia|].
    apply (Z.div_unique _ _ _ (rate - 1)); [lia|]. lia.
  - rewrite (one_update_per_group rate len (len / rate * rate) (len mod rate));
      [|done | by rewrite Z_mod_mult | lia | lia | right; lia].
    simpl. replace ((len + rate - 1) / rate) with (len / rate + 1); [lia|].
    apply (Z.div_unique _ _ _ (len mod rate - 1)); [lia|]. lia.
Qed.

(** X12: an epoch of [len] batches makes [ceil(len / virtual_batch_rate)] real
    updates and a virtual step on each of the other batches.  (The bounds
    keep the float arithmetic of the condition exact.) *)
Theorem updates_per_epoch `{Torch} (cfg : Config) (d : Data)
    (DELTA : float) (epoch : Z) (w : World) :
  0 < BATCH_SIZE cfg →
  0 < VIRTUAL_BATCH_SIZE cfg →
  VIRTUAL_BATCH_SIZE cfg mod BATCH_SIZE cfg = 0 →
  0 < LOGGING_INTERVAL cfg →
  Z.of_nat (length (train_dataloader d epoch)) = len_train_dataloader d →
  VIRTUAL_BATCH_SIZE cfg < 2 ^ 53 →
  len_train_dataloader d < 2 ^ 53 →
  let rate := VIRTUAL_BATCH_SIZE cfg / BATCH_SIZE cfg in
  let len := len_train_dataloader d in
  ∃ w' new_calls,
    train_epoch cfg d DELTA rate epoch tt w = (Returned tt, w')
    ∧ calls w' = calls w ++ new_calls
    ∧ count_calls call_step new_calls = Z.to_nat (ceil_div len rate)
    ∧ count_calls call_virtual_step new_calls
      = Z.to_nat (len - ceil_div len rate).
Proof.
  intros HB HV Hdiv HL Hlen _ _ rate len.
  assert (Hrate : 0 < rate) by by apply rate_positive.
  assert (Hlen0 : 0 ≤ len) by (subst len; lia).
  destruct (emits_train_epoch cfg d DELTA rate epoch) with (w := w)
    as ([] & w' & Hrun & Hcalls); [lia | lia | done |].
  exists w', (epoch_calls cfg rate len (length (test_dataloader d)) epoch).
  split; [done|]. split; [done|].
  pose proof (filter_length_split (update_due rate len) (seqZ 0 len)) as Hsum.
  rewrite length_seqZ, updates_in_epoch in Hsum by done.
  unfold count_calls, epoch_calls. rewrite !filter_concat_map. split.
  - erewrite map_ext; [|intros step; apply count_step_batch_calls].
    by rewrite length_concat_if, updates_in_epoch.
  - erewrite map_ext; [|intros step; apply count_virtual_step_batch_calls].
    rewrite length_concat_if.
    assert (0 ≤ ceil_div len rate).
    { unfold ceil_div. apply Z.div_pos; lia. }
    rewrite Z2Nat.inj_sub by done. lia.
Qed.

Lemma updates_per_epoch_witness :
  let d := Concrete.small_data 6 in
  ∃ w' new_calls,
    @train_epoch Concrete.counting_torch notebook_config d 0 4 1 tt
      Concrete.initial_world = (Returned tt, w')
    ∧ calls w' = [] ++ new_calls
    ∧ count_calls call_step new_calls = Z.to_nat (ceil_div 6 4)
    ∧ count_calls call_virtual_step new_calls = Z.to_nat (6 - ceil_div 6 4).
Proof.
  intros d.
  apply (@updates_per_epoch Concrete.counting_torch notebook_config d 0 1
           Concrete.initial_world);
    simpl; try lia; reflexivity.
Defined.

(** X13: over the whole training there are [EPOCHS * ceil(len /
    virtual_batch_rate)] real updates, and [model.zero_grad()] runs once per
    physical batch, [EPOCHS * len] times. *)
Theorem updates_in_training `{Torch} (cfg : Config) (d : Data) (w : World) :
  0 < BATCH_SIZE cfg →
  0 < VIRTUAL_BATCH_SIZE cfg →
  VIRTUAL_BATCH_SIZE cfg mod BATCH_SIZE cfg = 0 →
  0 < LOGGING_INTERVAL cfg →
  0 < len_train_dataloader d →
  (∀ epoch, Z.of_nat (length (train_dataloader d epoch)) = len_train_dataloader d) →
  let rate := VIRTUAL_BATCH_SIZE cfg / BATCH_SIZE cfg in
  let len := len_train_dataloader d in
  ∃ w' new_calls,
    notebook_training cfg d w = (Returned tt, w')
    ∧ calls w' = calls w ++ new_calls
    ∧ count_calls call_step new_calls
      = (Z.to_nat (EPOCHS cfg) * Z.to_nat (ceil_div len rate))%nat
    ∧ count_calls call_zero_grad new_calls
      = (Z.to_nat (EPOCHS cfg) * Z.to_nat len)%nat.
Proof.
  intros HB HV Hdiv HL Hpos Hlen rate len.
  assert (Hrate : 0 < rate) by by apply rate_positive.
  destruct (emits_notebook_training cfg d HB HV Hdiv HL Hpos Hlen w)
    as ([] & w' & Hrun & Hcalls).
  eexists w', _. split; [done|]. split; [done|].
  unfold count_calls. rewrite !List.filter_app, !length_app.
  rewrite !filter_concat_map. split.
  - rewrite (length_concat_const _ (Z.to_nat (ceil_div len rate))).
    + rewrite length_seqZ. simpl. lia.
    + intros epoch. unfold epoch_calls. rewrite filter_concat_map.
      erewrite map_ext; [|intros step; apply count_step_batch_calls].
      rewrite length_concat_if. apply updates_in_epoch; lia.
  - rewrite (length_concat_const _ (Z.to_nat len)).
    + rewrite length_seqZ. simpl. lia.
    + intros epoch. unfold epoch_calls. rewrite filter_concat_map.
      erewrite map_ext; [|intros step; apply count_zero_grad_batch_calls].
      rewrite (length_concat_const _ 1%nat) by done.
      rewrite length_seqZ. lia.
Qed.

Lemma updates_in_training_witness :
  let d := Concrete.small_data 6 in
  ∃ w' new_calls,
    @notebook_training Concrete.counting_torch notebook_config d
      Concrete.initial_world = (Returned tt, w')
    ∧ calls w' = [] ++ new_calls
    ∧ count_calls call_step new_calls
      = (Z.to_nat 3 * Z.to_nat (ceil_div 6 4))%nat
    ∧ count_calls call_zero_grad new_calls = (Z.to_nat 3 * Z.to_nat 6)%nat.
Proof.
  intros d.
  apply (@updates_in_training Concrete.counting_torch notebook_config d
           Concrete.initial_world);
    simpl; try lia; intros; reflexivity.
Defined.

Lemma elem_of_concat_map {A B} (g : A → list B) (l : list A) y :
  y ∈ concat (map g l) → ∃ x, x ∈ l ∧ y ∈ g x.
Proof.
  induction l as [|x l IH]; simpl; [by intros ?%elem_of_nil|].
  intros [Hy|Hy]%elem_of_app.
  - exists x. split; [left | done].
  - destruct (IH Hy) as (x' & ? & ?). exists x'. split; [by right | done].
Qed.

(** X14: with [VIRTUAL_BATCH_SIZE] equal to [BATCH_SIZE] every batch makes a
    real update: [virtual_step()] is never called. *)
Theorem equal_batch_sizes_never_virtual_step `{Torch} (cfg : Config)
    (d : Data) (w : World) :
  0 < BATCH_SIZE cfg →
  VIRTUAL_BATCH_SIZE cfg = BATCH_SIZE cfg →
  0 < LOGGING_INTERVAL cfg →
  0 < len_train_dataloader d →
  (∀ epoch, Z.of_nat (length (train_dataloader d epoch)) = len_train_dataloader d) →
  ∃ w' new_calls,
    notebook_training cfg d w = (Returned tt, w')
    ∧ calls w' = calls w ++ new_calls
    ∧ call_virtual_step ∉ new_calls.
Proof.
  intros HB HVB HL Hpos Hlen.
  assert (HV : 0 < VIRTUAL_BATCH_SIZE cfg) by lia.
  assert (Hdiv : VIRTUAL_BATCH_SIZE cfg mod BATCH_SIZE cfg = 0)
    by (rewrite HVB; apply Z_mod_same_full).
  destruct (emits_notebook_training cfg d HB HV Hdiv HL Hpos Hlen w)
    as ([] & w' & Hrun & Hcalls).
  eexists w', _. split; [done|]. split; [done|].
  replace (VIRTUAL_BATCH_SIZE cfg / BATCH_SIZE cfg) with 1
    by (rewrite HVB, Z_div_same_full; lia).
  intros [Hin|Hin]%elem_of_app.
  - repeat (apply elem_of_cons in Hin as [Hin|Hin]; [discriminate Hin|]).
    by apply elem_of_nil in Hin.
  - apply elem_of_concat_map in Hin as (epoch & _ & Hin).
    apply elem_of_concat_map in Hin as (step & _ & Hin).
    assert (Hopt : call_virtual_step
                   ∈ List.filter is_optimizer_call
                       (batch_calls cfg 1 (len_train_dataloader d)
                          (length (test_dataloader d)) epoch step)).
    { apply list_elem_of_In, filter_In. split; [by apply list_elem_of_In | done]. }
    rewrite filter_optimizer_batch_calls in Hopt.
    unfold optimizer_call_at, update_due in Hopt. rewrite Z.mod_1_r in Hopt.
    simpl in Hopt. apply list_elem_of_singleton in Hopt. discriminate.
Qed.

Lemma equal_batch_sizes_never_virtual_step_witness :
  let d := Concrete.small_data 3 in
  ∃ w' new_calls,
    @notebook_training Concrete.counting_torch (mkConfig 8 8 2 1000) d
      Concrete.initial_world = (Returned tt, w')
    ∧ calls w' = [] ++ new_calls
    ∧ call_virtual_step ∉ new_calls.
Proof.
  intros d.
  apply (@equal_batch_sizes_never_virtual_step Concrete.counting_torch
           (mkConfig 8 8 2 1000) d Concrete.initial_world);
    simpl; try lia; intros; reflexivity.
Defined.

(** X15: an epoch of at most [LOGGING_INTERVAL] batches never reports: the
    training makes forward and backward passes, optimizer calls and
    [zero_grad()] only; it never asks for the privacy spent, never evaluates
    and never prints. *)
Theorem short_epochs_never_report `{Torch} (cfg : Config) (d : Data)
    (DELTA : float) (w : World) :
  0 < BATCH_SIZE cfg →
  0 < VIRTUAL_BATCH_SIZE cfg →
  VIRTUAL_BATCH_SIZE cfg mod BATCH_SIZE cfg = 0 →
  (∀ epoch, Z.of_nat (length (train_dataloader d epoch)) = len_train_dataloader d) →
  len_train_dataloader d ≤ LOGGING_INTERVAL cfg →
  0 < LOGGING_INTERVAL cfg →
  ∃ w' new_calls,
    cell_31 cfg d DELTA (VIRTUAL_BATCH_SIZE cfg / BATCH_SIZE cfg) w
      = (Returned tt, w')
    ∧ calls w' = calls w ++ new_calls
    ∧ Forall (λ c, is_plain_training_call c = true) new_calls.
Proof.
  intros HB HV Hdiv Hlen Hshort HL.
  assert (Hrate : 0 < VIRTUAL_BATCH_SIZE cfg / BATCH_SIZE cfg)
    by by apply rate_positive.
  destruct (emits_cell_31 cfg d DELTA (VIRTUAL_BATCH_SIZE cfg / BATCH_SIZE cfg))
    with (w := w) as ([] & w' & Hrun & Hcalls); [lia | lia | done |].
  eexists w', _. split; [done|]. split; [done|].
  apply list.Forall_forall. intros c Hin.
  apply elem_of_concat_map in Hin as (epoch & _ & Hin).
  apply elem_of_concat_map in Hin as (step & Hstep%elem_of_seqZ & Hin).
  unfold batch_calls, report_calls in Hin.
  replace (logging_due cfg step) with false in Hin.
  - rewrite app_nil_r in Hin.
    destruct (optimizer_call_at_cases (VIRTUAL_BATCH_SIZE cfg / BATCH_SIZE cfg)
                (len_train_dataloader d) step) as [Hc|Hc];
      rewrite Hc in Hin;
      repeat (apply elem_of_cons in Hin as [->|Hin]; [done|]);
      by apply elem_of_nil in Hin.
  - symmetry. unfold logging_due. apply andb_false_iff.
    destruct (decide (0 < step)) as [Hpos|Hzero].
    + right. apply Z.eqb_neq. rewrite Z.mod_small by lia. lia.
    + left. apply Z.ltb_ge. lia.
Qed.

Lemma short_epochs_never_report_witness :
  let d := Concrete.small_data 6 in
  ∃ w' new_calls,
    @cell_31 Concrete.counting_torch notebook_config d 0 (32 / 8)
      Concrete.initial_world = (Returned tt, w')
    ∧ calls w' = [] ++ new_calls
    ∧ Forall (λ c, is_plain_training_call c = true) new_calls.
Proof.
  intros d.
  apply (@short_epochs_never_report Concrete.counting_torch notebook_config d 0
           Concrete.initial_world);
    simpl; try lia; intros; reflexivity.
Defined.

(** *** Configurations cell 30 rejects *)

(** X16: with positive sizes and a loader that is not empty, a
    [VIRTUAL_BATCH_SIZE] that is no multiple of [BATCH_SIZE] stops the
    notebook on the assertion of cell 30: the engine has been built and
    attached, no batch has been trained. *)
Theorem unusable_configuration_stops_before_training `{Torch} (cfg : Config)
    (d : Data) (w : World) :
  0 < BATCH_SIZE cfg →
  0 < VIRTUAL_BATCH_SIZE cfg →
  0 < len_train_dataloader d →
  VIRTUAL_BATCH_SIZE cfg mod BATCH_SIZE cfg ≠ 0 →
  ∃ w',
    notebook_training cfg d w = (Raised AssertionError, w')
    ∧ calls w' =
        calls w ++ [call_PrivacyEngine (VIRTUAL_BATCH_SIZE cfg) (len_train_dataset d);
                    call_attach].
Proof.
  intros HB HV Hlen Hmod. unfold notebook_training, cell_26, cell_30, py_mod, bind,
    invoke, modify, ret, raise. cbn [fst snd torch calls].
  rewrite <- app_assoc. cbn [app].
  replace (len_train_dataloader d =? 0) with false by (symmetry; apply Z.eqb_neq; lia).
  replace (BATCH_SIZE cfg =? 0) with false by (symmetry; apply Z.eqb_neq; lia).
  apply Z.eqb_neq in Hmod as ->. by eexists.
Qed.

Lemma unusable_configuration_stops_before_training_witness :
  ∃ w',
    @notebook_training Concrete.counting_torch (mkConfig 8 30 3 1000)
      (Concrete.small_data 6) Concrete.initial_world = (Raised AssertionError, w')
    ∧ calls w' = [] ++ [call_PrivacyEngine 30 48; call_attach].
Proof.
  apply (@unusable_configuration_stops_before_training Concrete.counting_torch
           (mkConfig 8 30 3 1000) (Concrete.small_data 6) Concrete.initial_world);
    simpl; try lia; discriminate.
Defined.

(** X17: a [VIRTUAL_BATCH_SIZE] of zero passes the assertion of cell 30; the
    first batch then raises [ZeroDivisionError] in the test of the update
    condition, after its forward and backward pass and before any optimizer
    call. *)
Theorem zero_virtual_batch_size_fails_on_first_batch `{Torch} (cfg : Config)
    (d : Data) (w : World) b bs :
  VIRTUAL_BATCH_SIZE cfg = 0 →
  BATCH_SIZE cfg ≠ 0 →
  len_train_dataloader d ≠ 0 →
  0 < EPOCHS cfg →
  train_dataloader d 1 = b :: bs →
  ∃ w',
    notebook_training cfg d w = (Raised ZeroDivisionError, w')
    ∧ calls w' =
        calls w ++ [call_PrivacyEngine 0 (len_train_dataset d); call_attach;
                    call_model true; call_backward].
Proof.
  intros HV HB Hlen HE Hb.
  unfold notebook_training. unfold bind at 1.
  unfold cell_26, bind, invoke, modify. cbn [fst snd].
  rewrite cell_30_run; [|done|done|by rewrite HV, Z.mod_0_l].
  rewrite HV, Z.div_0_l by done. cbn [fst snd].
  unfold cell_31. rewrite seqZ_cons by done. simpl for_in.
  unfold bind at 1. unfold train_epoch at 1. unfold bind at 1.
  rewrite Hb. simpl for_enumerate. unfold bind at 1.
  unfold train_batch, optimizer_update, py_mod, bind, invoke_with, invoke,
    modify, raise. cbn [fst snd torch calls Z.eqb].
  eexists. split; [reflexivity|]. cbn [calls].
  by rewrite <- !app_assoc.
Qed.

Lemma zero_virtual_batch_size_fails_on_first_batch_witness :
  ∃ w',
    @notebook_training Concrete.counting_torch (mkConfig 8 0 3 1000)
      (Concrete.small_data 2) Concrete.initial_world
      = (Raised ZeroDivisionError, w')
    ∧ calls w' = [] ++ [call_PrivacyEngine 0 16; call_attach;
                        call_model true; call_backward].
Proof.
  apply (@zero_virtual_batch_size_fails_on_first_batch Concrete.counting_torch
           (mkConfig 8 0 3 1000) (Concrete.small_data 2) Concrete.initial_world
           1 [2]); simpl; try lia; try discriminate; reflexivity.
Defined.

End TrainingMore.

(** ** Failures anywhere in the notebook *)

Module CellsFacts.
Import Exc Cells.

Lemma split_at {A} (ops1 ops2 pre : list A) o post :
  ops1 ++ ops2 = pre ++ o :: post →
  (∃ post1, ops1 = pre ++ o :: post1 ∧ post = post1 ++ ops2)
  ∨ (∃ pre2, pre = ops1 ++ pre2 ∧ ops2 = pre2 ++ o :: post).
Proof.
  intros [(k & -> & Hk) | (k & -> & ->)]%app_eq_inv.
  - destruct k as [|o' k]; simpl in Hk.
    + right. exists []. rewrite !app_nil_r. by rewrite <- Hk.
    + injection Hk as <- ->. left. by exists k.
  - right. by exists k.
Qed.

Lemma raises_with_l env h ops1 ops2 e :
  raises_with env h ops1 e → raises_with env h (ops1 ++ ops2) e.
Proof.
  intros (pre & o & post & -> & He). exists pre, o, (post ++ ops2).
  by rewrite <- app_assoc.
Qed.

Lemma raises_with_r env h ops1 ops2 e :
  raises_with env (h ++ ops1) ops2 e → raises_with env h (ops1 ++ ops2) e.
Proof.
  intros (pre & o & post & -> & He). exists (ops1 ++ pre), o, post.
  split; [by rewrite <- app_assoc | by rewrite app_assoc].
Qed.

Lemma propagates_ret {A} env (a : A) : propagating env (ret a).
Proof.
  intros h. exists []. simpl. rewrite app_nil_r. split; [done|]. split.
  - intros pre o post e Heq. by destruct pre.
  - discriminate.
Qed.

Lemma propagates_perform env c : propagating env (perform env c).
Proof.
  intros h. exists [c]. unfold perform. split; [by destruct (env h c)|]. split.
  - intros pre o post e Heq He.
    destruct pre as [|? [|? ?]]; simplify_eq/=. rewrite app_nil_r in He.
    rewrite He. split; [by eexists | constructor].
  - intros e He. exists [], c, []. split; [done|]. rewrite app_nil_r.
    destruct (env h c); by simplify_eq/=.
Qed.

Lemma propagates_bind {A B} env (c : M (list call) A) (k : A → M (list call) B) :
  propagating env c → (∀ a, propagating env (k a)) → propagating env (bind c k).
Proof.
  intros Hc Hk h. destruct (Hc h) as (ops1 & Hh1 & Hstop1 & Hfrom1).
  unfold bind. destruct (c h) as [[a|e] h1] eqn:Ec; simpl in *; subst h1.
  - destruct (Hk a (h ++ ops1)) as (ops2 & Hh2 & Hstop2 & Hfrom2).
    exists (ops1 ++ ops2). rewrite Hh2, <- app_assoc. split; [done|]. split.
    + intros pre o post e [(post1 & -> & ->) | (pre2 & -> & ->)]%split_at He.
      * destruct (Hstop1 pre o post1 e eq_refl He) as [[? ?] _]. discriminate.
      * rewrite app_assoc in He. by apply (Hstop2 pre2 o post e).
    + intros e He. by apply raises_with_r, Hfrom2.
  - exists ops1. split; [done|]. split.
    + intros pre o post e' Heq He. split; [by eexists|].
      by apply (Hstop1 pre o post e').
    + intros e' [= <-]. by apply Hfrom1.
Qed.

Lemma propagating_for_in {A B} env (body : A → B → M (list call) B) xs acc :
  (∀ x acc, propagating env (body x acc)) →
  propagating env (for_in body xs acc).
Proof.
  intros Hbody. revert acc. induction xs as [|x xs IH]; intros acc; simpl.
  - apply propagates_ret.
  - apply propagates_bind; [apply Hbody | apply IH].
Qed.

Lemma propagating_for_enumerate {A B} env (body : Z → A → B → M (list call) B)
    step xs acc :
  (∀ step x acc, propagating env (body step x acc)) →
  propagating env (for_enumerate body step xs acc).
Proof.
  intros Hbody. revert step acc.
  induction xs as [|x xs IH]; intros step acc; simpl.
  - apply propagates_ret.
  - apply propagates_bind; [apply Hbody | intros a; apply IH].
Qed.

Lemma propagating_times env n body :
  propagating env body → propagating env (times n body).
Proof. intros Hbody. unfold times. by apply propagating_for_in. Qed.

(** A [with] block runs its exit on both ways out and lets the exception
    of its body through. *)
Lemma propagating_with_context env enter exit body :
  is_cleanup exit → propagating env body →
  propagating env (with_context env enter exit body).
Proof.
  intros Hexit Hbody. unfold with_context. apply propagates_bind.
  { apply propagates_perform. }
  intros _ h. destruct (Hbody h) as (ops1 & Hh1 & Hstop1 & Hfrom1).
  destruct (propagates_perform env exit (h ++ ops1))
    as (ops2 & Hh2 & Hstop2 & Hfrom2).
  assert (ops2 = [exit]) as ->.
  { unfold perform in Hh2. destruct (env (h ++ ops1) exit); simpl in Hh2;
      by apply app_inv_head in Hh2. }
  exists (ops1 ++ [exit]).
  destruct (body h) as [[[]|e1] h1] eqn:Eb; simpl in *; subst h1.
  - rewrite Hh2, <- app_assoc. split; [done|]. split.
    + intros pre o post e [(post1 & -> & ->) | (pre2 & -> & Heq)]%split_at He.
      * destruct (Hstop1 pre o post1 e eq_refl He) as [[? ?] _]. discriminate.
      * rewrite app_assoc in He. by apply (Hstop2 pre2 o post e).
    + intros e He. by apply raises_with_r, Hfrom2.
  - destruct (perform env exit (h ++ ops1)) as [[[]|e2] h2] eqn:Ep;
      simpl in *; subst h2; rewrite <- app_assoc; (split; [done|]); split.
    + intros pre o post e [(post1 & -> & ->) | (pre2 & -> & Heq)]%split_at He.
      * split; [by eexists|]. apply Forall_app. split.
        -- by apply (Hstop1 pre o post1 e).
        -- constructor; [done | constructor].
      * rewrite app_assoc in He.
        destruct (Hstop2 pre2 o post e Heq He) as [[? ?] _]. discriminate.
    + intros e [= <-]. by apply raises_with_l, Hfrom1.
    + intros pre o post e [(post1 & -> & ->) | (pre2 & -> & Heq)]%split_at He.
      * split; [by eexists|]. apply Forall_app. split.
        -- by apply (Hstop1 pre o post1 e).
        -- constructor; [done | constructor].
      * split; [by eexists|]. rewrite app_assoc in He.
        by apply (Hstop2 pre2 o post e).
    + intros e [= <-]. by apply raises_with_r, Hfrom2.
Qed.

Lemma map_Dl_split (ops : list Download.op) pre o post :
  map Dl ops = pre ++ o :: post →
  ∃ pre' o' post',
    ops = pre' ++ o' :: post' ∧ pre = map Dl pre' ∧ o = Dl o'
    ∧ post = map Dl post'.
Proof.
  revert pre. induction ops as [|x ops IH]; intros pre Heq; simpl in Heq.
  - by destruct pre.
  - destruct pre as [|y pre]; simpl in Heq; injection Heq as <- Heq.
    + exists [], x, ops. by rewrite Heq.
    + destruct (IH pre Heq) as (pre' & o' & post' & -> & -> & -> & ->).
      by exists (x :: pre'), o', post'.
Qed.

(** The download cell catches nothing either: its only exit is the close
    of the archive. *)
Lemma propagating_download_cell env dataset_url data_dir :
  propagating env (download_and_extract env dataset_url data_dir).
Proof.
  intros h. unfold download_and_extract.
  set (env_d := λ h' o, env (h ++ map Dl h') (Dl o)).
  destruct (DownloadFacts.propagating_download_and_extract env_d
              dataset_url data_dir [])
    as (ops & Hops & _ & Hfrom).
  destruct (DownloadMore.download_stops_at_failure env_d
              dataset_url data_dir [])
    as (ops' & Hops' & Hstop).
  simpl in Hops, Hops'. assert (ops' = ops) as -> by congruence.
  exists (map Dl ops). cbn [fst snd]. rewrite Hops. split; [done|]. split.
  - intros pre o post e (pre' & o' & post' & -> & -> & -> & ->)%map_Dl_split He.
    destruct (Hstop pre' o' post' e eq_refl He) as [Hraised Hpost].
    split; [done|]. destruct Hpost as [-> | [_ ->]]; [constructor|].
    constructor; [by left | constructor].
  - intros e He. destruct (Hfrom e He) as (pre & o & post & -> & Henv).
    exists (map Dl pre), (Dl o), (map Dl post). split; [|done].
    by rewrite map_app.
Qed.

Ltac propagate :=
  repeat first
    [ apply propagates_perform
    | apply propagates_ret
    | apply propagating_download_cell
    | apply propagating_times
    | apply propagating_for_in; intros ? ?
    | apply propagating_for_enumerate; intros ? ? ?
    | apply propagating_with_context; [by right|]
    | apply propagates_bind; [|intros ?]
    | match goal with
      | |- propagating _ (if ?b then _ else _) => destruct b
      | |- propagating _ (match ?k with UnknownLabel => _ | _ => _ end) =>
          destruct k
      end ].

Lemma propagating_evaluate env sh : propagating env (evaluate env sh).
Proof. unfold evaluate, batch_to_device. propagate. Qed.

Lemma propagating_cell_19 env sh : propagating env (cell_19 env sh).
Proof.
  unfold cell_19, _df_to_features, _create_examples, _features_to_dataset.
  repeat first
    [ apply propagates_perform
    | apply propagates_ret
    | apply propagating_for_in; intros k []; unfold _create_examples_row
    | apply propagates_bind; [|intros ?]
    | match goal with
      | |- propagating _ (if ?b then _ else _) => destruct b
      | |- propagating _ (match ?k with UnknownLabel => _ | _ => _ end) =>
          destruct k
      end ].
Qed.

Lemma propagating_cell_31 env sh : propagating env (cell_31 env sh).
Proof.
  unfold cell_31. apply propagating_for_in. intros epoch [].
  apply propagates_bind; [apply propagates_perform|]. intros _.
  apply propagates_bind; [apply propagates_perform|]. intros _.
  apply propagating_for_enumerate. intros step i [].
  unfold train_batch, batch_to_device.
  repeat first
    [ apply propagating_evaluate
    | apply propagates_perform
    | apply propagates_ret
    | apply propagating_times
    | apply propagates_bind; [|intros ?]
    | match goal with
      | |- propagating _ (if ?b then _ else _) => destruct b
      end ].
Qed.

Lemma propagating_notebook env sh : propagating env (notebook env sh).
Proof.
  unfold notebook.
  repeat first
    [ apply propagating_cell_19
    | apply propagating_cell_31
    | apply propagates_bind; [|intros ?] ];
    unfold cell_5, cell_7, cell_9, cell_12, cell_15, cell_22, cell_24, cell_26,
      cell_28, cell_30;
    propagate.
Qed.

End CellsFacts.

(** ** Malformed rows and all other failures *)

Module NotebookFacts.
Import Exc Dataset.

(** A world in which reading the frames fails: the notebook stops there. *)
Example read_csv_fails :
  Cells.notebook
    (λ _ c, match c with
            | Cells.Lib "pd.read_csv" => Some (External "FileNotFoundError")
            | _ => None
            end)
    (Cells.mkShape false 2 [1; 1; 1]%nat
       [Cells.WellFormed; Cells.UnknownLabel] [Cells.WellFormed] 1 1 1
       (λ _ _, true) (λ _ _, true) (λ _ _, false)) [] =
  (Raised (External "FileNotFoundError"),
   [Cells.Lib "import zipfile"; Cells.Lib "import urllib.request";
    Cells.Lib "import os"]
   ++ map Cells.Dl
     [Download.Print "Downloading and extracting ...";
      Download.UrlRetrieve Download.STANFORD_SNLI_URL "snli.zip";
      Download.ZipOpen "snli.zip"; Download.ZipExtractAll "data";
      Download.ZipClose; Download.OsRemove "snli.zip";
      Download.Print "Completed!"]
   ++ [Cells.Lib "os.path.join"; Cells.Lib "os.listdir";
       Cells.Lib "import pandas";
       Cells.Lib "os.path.join"; Cells.Lib "os.path.join";
       Cells.Lib "pd.read_csv"]).
Proof. vm_compute. reflexivity. Qed.

(** A forward pass that fails inside [evaluate]: the [no_grad] block is
    left through its exit, [model.train()] is not reached, the training
    loop ends with the exception. *)
Example forward_pass_fails_in_evaluate :
  let run :=
    Cells.notebook
      (λ h c, match c, list.last h with
              | Cells.Lib "model(**inputs)",
                Some (Cells.Lib "torch.no_grad.__enter__") =>
                  Some (External "RuntimeError")
              | _, _ => None
              end)
      (Cells.mkShape false 2 [1; 1; 1]%nat
         [Cells.WellFormed; Cells.Sentence2NotStr] [Cells.WellFormed] 1 2 1
         (λ _ _, false) (λ _ step, step =? 1) (λ _ step, step =? 1)) [] in
  run.1 = Raised (External "RuntimeError")
  ∧ drop (length run.2 - 3) run.2 =
      [Cells.Lib "torch.no_grad.__enter__"; Cells.Lib "model(**inputs)";
       Cells.Lib "torch.no_grad.__exit__"]
  ∧ Cells.Lib "model.train" ∉ run.2.
Proof.
  split; [by vm_compute|]. split; [by vm_compute|].
  apply (bool_decide_unpack _). vm_compute. exact I.
Qed.

(** C6: parsing skips malformed rows silently, and nothing else is caught.
    [_create_examples] returns on every frame, with exactly one example per
    well-formed row and nothing (no error record) for a row with an unknown
    label or a non-string sentence.  In the notebook as a whole, whatever
    the data and whichever call fails (a download, a file, a library call, a
    division, the assertion): the run raises, what it raises is what one of
    its calls raised, and after the failing call nothing runs but the exits
    of the [with] blocks it was in. *)
Theorem malformed_rows_skipped_other_failures_propagate :
  (∀ df set_type,
      _create_examples df set_type =
      map (example_of set_type) (List.filter (λ ir, retained ir.2) (iterrows df)))
  ∧ (∀ row,
      retained row = false ↔
      gold_label row ∉ LABEL_LIST
      ∨ Py.isinstance_str (sentence1 row) = false
      ∨ Py.isinstance_str (sentence2 row) = false)
  ∧ (∀ env sh h,
      let run := Cells.notebook env sh h in
      ∃ ops,
        run.2 = h ++ ops
        ∧ (∀ pre o post e,
             ops = pre ++ o :: post → env (h ++ pre) o = Some e →
             (∃ e', run.1 = Raised e') ∧ Forall Cells.is_cleanup post)
        ∧ (∀ e, run.1 = Raised e → Cells.raises_with env h ops e)).
Proof.
  split; [|split].
  - apply DatasetFacts.create_examples_filter_map.
  - intros row. rewrite <- DatasetFacts.contains_elem_of. unfold retained.
    rewrite !andb_false_iff, not_true_iff_false. tauto.
  - intros env sh h. apply CellsFacts.propagating_notebook.
Qed.

End NotebookFacts.
